(** * SpiceDB: schema validation, datastore options, context severing,
      optimized-revision cache and reachability entrypoints

    A shallow embedding of the parts of the repository that the properties
    below talk about:

    - [internal/datastore/crdb/options.go]: [generateConfig] and the
      functional options of the CockroachDB datastore;
    - [internal/datastore/proxy]: [SeparateContextWithTracing] and the
      separating-context datastore proxy [ctxProxy] / [ctxReader];
    - [proto/internal/core/v1/core.proto]: the protoc-gen-validate rules of
      [ObjectAndRelation], [CaveatDefinition], [UsersetRewrite] and
      [SetOperation];
    - the optimized-revision cache and the reachability graph construction:
      their tests and declarations are covered, the implementations are
      modelled from the specification. *)

From Stdlib Require Import ZArith List String Ascii Bool Lia.
From Stdlib Require Import PrimFloat.
From stdpp Require Import gmap strings list.

Set Warnings "-register-all".

Open Scope string_scope.
Open Scope list_scope.
Open Scope Z_scope.

(** Boolean tests as propositions. *)
Ltac bool_props :=
  repeat first
    [ rewrite andb_true_iff | rewrite orb_true_iff | rewrite Nat.leb_le
    | rewrite Nat.eqb_eq | rewrite Nat.ltb_lt | rewrite negb_true_iff ].

Ltac bool_props_in H :=
  repeat first
    [ rewrite andb_true_iff in H | rewrite orb_true_iff in H
    | rewrite Nat.leb_le in H | rewrite Nat.eqb_eq in H
    | rewrite Nat.ltb_lt in H | rewrite negb_true_iff in H ].

(* ===================================================================== *)
(** * CockroachDB datastore options                                       *)
(* ===================================================================== *)

Module Crdb.

(** [time.Duration] is an [int64] count of nanoseconds. *)
Definition Duration := Z.
Definition Second : Duration := 1000000000.
Definition Hour : Duration := 3600 * Second.

(** Modelled from the spec: [pgxcommon.PoolOptions] is declared in another
    package, which is missing; the record has the six fields that options.go
    assigns, each of them a pointer ([None] is [nil]). *)
Record PoolOptions := mkPoolOptions {
  ConnHealthCheckInterval : option Duration;
  ConnMaxIdleTime : option Duration;
  ConnMaxLifetime : option Duration;
  ConnMaxLifetimeJitter : option Duration;
  MinOpenConns : option Z;
  MaxOpenConns : option Z
}.

(** The zero value of the struct. *)
Definition zeroPoolOptions : PoolOptions :=
  mkPoolOptions None None None None None None.

(** [type crdbOptions struct]. [uint16] and [uint8] fields are only stored,
    never computed with, so they are kept as integers of their range;
    [float64] is the binary64 type of the kernel. *)
Record crdbOptions := mkCrdbOptions {
  readPoolOpts : PoolOptions;
  writePoolOpts : PoolOptions;
  watchBufferLength : Z;
  revisionQuantization : Duration;
  followerReadDelay : Duration;
  maxRevisionStalenessPercent : float;
  gcWindow : Duration;
  maxRetries : Z;
  splitAtUsersetCount : Z;
  overlapStrategy : string;
  overlapKey : string;
  disableStats : bool;
  enablePrometheusStats : bool
}.

Definition overlapStrategyPrefix := "prefix".
Definition overlapStrategyStatic := "static".
Definition overlapStrategyInsecure := "insecure".

Definition defaultRevisionQuantization : Duration := 5 * Second.
Definition defaultFollowerReadDelay : Duration := 0 * Second.
Definition defaultMaxRevisionStalenessPercent : float := 0x1.999999999999ap-4%float.
Definition defaultWatchBufferLength : Z := 128.
Definition defaultSplitSize : Z := 1024.
Definition defaultMaxRetries : Z := 5.
Definition defaultOverlapKey := "defaultsynckey".
Definition defaultOverlapStrategy := overlapStrategyStatic.
Definition defaultEnablePrometheusStats := false.

(** The error built from [errQuantizationTooLarge]: it carries the two
    durations that the message prints. *)
Inductive error :=
| errQuantizationTooLarge (quantization window : Duration).

(** ** Field assignments ([po.field = v]) *)

Definition set_readPoolOpts (p : PoolOptions) (po : crdbOptions) :=
  mkCrdbOptions p (writePoolOpts po) (watchBufferLength po)
    (revisionQuantization po) (followerReadDelay po)
    (maxRevisionStalenessPercent po) (gcWindow po) (maxRetries po)
    (splitAtUsersetCount po) (overlapStrategy po) (overlapKey po)
    (disableStats po) (enablePrometheusStats po).

Definition set_writePoolOpts (p : PoolOptions) (po : crdbOptions) :=
  mkCrdbOptions (readPoolOpts po) p (watchBufferLength po)
    (revisionQuantization po) (followerReadDelay po)
    (maxRevisionStalenessPercent po) (gcWindow po) (maxRetries po)
    (splitAtUsersetCount po) (overlapStrategy po) (overlapKey po)
    (disableStats po) (enablePrometheusStats po).

Definition set_watchBufferLength (v : Z) (po : crdbOptions) :=
  mkCrdbOptions (readPoolOpts po) (writePoolOpts po) v
    (revisionQuantization po) (followerReadDelay po)
    (maxRevisionStalenessPercent po) (gcWindow po) (maxRetries po)
    (splitAtUsersetCount po) (overlapStrategy po) (overlapKey po)
    (disableStats po) (enablePrometheusStats po).

Definition set_revisionQuantization (v : Duration) (po : crdbOptions) :=
  mkCrdbOptions (readPoolOpts po) (writePoolOpts po) (watchBufferLength po)
    v (followerReadDelay po)
    (maxRevisionStalenessPercent po) (gcWindow po) (maxRetries po)
    (splitAtUsersetCount po) (overlapStrategy po) (overlapKey po)
    (disableStats po) (enablePrometheusStats po).

Definition set_followerReadDelay (v : Duration) (po : crdbOptions) :=
  mkCrdbOptions (readPoolOpts po) (writePoolOpts po) (watchBufferLength po)
    (revisionQuantization po) v
    (maxRevisionStalenessPercent po) (gcWindow po) (maxRetries po)
    (splitAtUsersetCount po) (overlapStrategy po) (overlapKey po)
    (disableStats po) (enablePrometheusStats po).

Definition set_maxRevisionStalenessPercent (v : float) (po : crdbOptions) :=
  mkCrdbOptions (readPoolOpts po) (writePoolOpts po) (watchBufferLength po)
    (revisionQuantization po) (followerReadDelay po)
    v (gcWindow po) (maxRetries po)
    (splitAtUsersetCount po) (overlapStrategy po) (overlapKey po)
    (disableStats po) (enablePrometheusStats po).

Definition set_gcWindow (v : Duration) (po : crdbOptions) :=
  mkCrdbOptions (readPoolOpts po) (writePoolOpts po) (watchBufferLength po)
    (revisionQuantization po) (followerReadDelay po)
    (maxRevisionStalenessPercent po) v (maxRetries po)
    (splitAtUsersetCount po) (overlapStrategy po) (overlapKey po)
    (disableStats po) (enablePrometheusStats po).

Definition set_maxRetries (v : Z) (po : crdbOptions) :=
  mkCrdbOptions (readPoolOpts po) (writePoolOpts po) (watchBufferLength po)
    (revisionQuantization po) (followerReadDelay po)
    (maxRevisionStalenessPercent po) (gcWindow po) v
    (splitAtUsersetCount po) (overlapStrategy po) (overlapKey po)
    (disableStats po) (enablePrometheusStats po).

Definition set_splitAtUsersetCount (v : Z) (po : crdbOptions) :=
  mkCrdbOptions (readPoolOpts po) (writePoolOpts po) (watchBufferLength po)
    (revisionQuantization po) (followerReadDelay po)
    (maxRevisionStalenessPercent po) (gcWindow po) (maxRetries po)
    v (overlapStrategy po) (overlapKey po)
    (disableStats po) (enablePrometheusStats po).

Definition set_overlapStrategy (v : string) (po : crdbOptions) :=
  mkCrdbOptions (readPoolOpts po) (writePoolOpts po) (watchBufferLength po)
    (revisionQuantization po) (followerReadDelay po)
    (maxRevisionStalenessPercent po) (gcWindow po) (maxRetries po)
    (splitAtUsersetCount po) v (overlapKey po)
    (disableStats po) (enablePrometheusStats po).

Definition set_overlapKey (v : string) (po : crdbOptions) :=
  mkCrdbOptions (readPoolOpts po) (writePoolOpts po) (watchBufferLength po)
    (revisionQuantization po) (followerReadDelay po)
    (maxRevisionStalenessPercent po) (gcWindow po) (maxRetries po)
    (splitAtUsersetCount po) (overlapStrategy po) v
    (disableStats po) (enablePrometheusStats po).

Definition set_disableStats (v : bool) (po : crdbOptions) :=
  mkCrdbOptions (readPoolOpts po) (writePoolOpts po) (watchBufferLength po)
    (revisionQuantization po) (followerReadDelay po)
    (maxRevisionStalenessPercent po) (gcWindow po) (maxRetries po)
    (splitAtUsersetCount po) (overlapStrategy po) (overlapKey po)
    v (enablePrometheusStats po).

Definition set_enablePrometheusStats (v : bool) (po : crdbOptions) :=
  mkCrdbOptions (readPoolOpts po) (writePoolOpts po) (watchBufferLength po)
    (revisionQuantization po) (followerReadDelay po)
    (maxRevisionStalenessPercent po) (gcWindow po) (maxRetries po)
    (splitAtUsersetCount po) (overlapStrategy po) (overlapKey po)
    (disableStats po) v.

Definition set_ConnHealthCheckInterval (v : option Duration) (p : PoolOptions) :=
  mkPoolOptions v (ConnMaxIdleTime p) (ConnMaxLifetime p)
    (ConnMaxLifetimeJitter p) (MinOpenConns p) (MaxOpenConns p).
Definition set_ConnMaxIdleTime (v : option Duration) (p : PoolOptions) :=
  mkPoolOptions (ConnHealthCheckInterval p) v (ConnMaxLifetime p)
    (ConnMaxLifetimeJitter p) (MinOpenConns p) (MaxOpenConns p).
Definition set_ConnMaxLifetime (v : option Duration) (p : PoolOptions) :=
  mkPoolOptions (ConnHealthCheckInterval p) (ConnMaxIdleTime p) v
    (ConnMaxLifetimeJitter p) (MinOpenConns p) (MaxOpenConns p).
Definition set_ConnMaxLifetimeJitter (v : option Duration) (p : PoolOptions) :=
  mkPoolOptions (ConnHealthCheckInterval p) (ConnMaxIdleTime p)
    (ConnMaxLifetime p) v (MinOpenConns p) (MaxOpenConns p).
Definition set_MinOpenConns (v : option Z) (p : PoolOptions) :=
  mkPoolOptions (ConnHealthCheckInterval p) (ConnMaxIdleTime p)
    (ConnMaxLifetime p) (ConnMaxLifetimeJitter p) v (MaxOpenConns p).
Definition set_MaxOpenConns (v : option Z) (p : PoolOptions) :=
  mkPoolOptions (ConnHealthCheckInterval p) (ConnMaxIdleTime p)
    (ConnMaxLifetime p) (ConnMaxLifetimeJitter p) (MinOpenConns p) v.

(** ** Options

    An [Option] is a function on a pointer to [crdbOptions]. The struct is
    unexported, so the
    options a caller can build are the ones the package's constructors
    return; each constructor is one case, with the argument its closure
    captured. *)
Inductive Option :=
| SplitAtUsersetCount (splitAtUsersetCount : Z)
| ReadConnHealthCheckInterval (interval : Duration)
| WriteConnHealthCheckInterval (interval : Duration)
| ReadConnMaxIdleTime (idle : Duration)
| WriteConnMaxIdleTime (idle : Duration)
| ReadConnMaxLifetime (lifetime : Duration)
| ReadConnMaxLifetimeJitter (jitter : Duration)
| WriteConnMaxLifetime (lifetime : Duration)
| WriteConnMaxLifetimeJitter (jitter : Duration)
| ReadConnsMinOpen (conns : Z)
| WriteConnsMinOpen (conns : Z)
| ReadConnsMaxOpen (conns : Z)
| WriteConnsMaxOpen (conns : Z)
| WatchBufferLength (watchBufferLength : Z)
| RevisionQuantization (bucketSize : Duration)
| FollowerReadDelay (delay : Duration)
| MaxRevisionStalenessPercent (stalenessPercent : float)
| GCWindow (window : Duration)
| MaxRetries (maxRetries : Z)
| OverlapStrategy (strategy : string)
| OverlapKey (key : string)
| DisableStats (disable : bool)
| WithEnablePrometheusStats (enablePrometheusStats : bool).

(** Calling the option on the address of [computed]: the body of each
    closure. *)
Definition call (option : Option) (po : crdbOptions) : crdbOptions :=
  match option with
  | SplitAtUsersetCount n => set_splitAtUsersetCount n po
  | ReadConnHealthCheckInterval interval =>
      set_readPoolOpts (set_ConnHealthCheckInterval (Some interval) (readPoolOpts po)) po
  | WriteConnHealthCheckInterval interval =>
      set_writePoolOpts (set_ConnHealthCheckInterval (Some interval) (writePoolOpts po)) po
  | ReadConnMaxIdleTime idle =>
      set_readPoolOpts (set_ConnMaxIdleTime (Some idle) (readPoolOpts po)) po
  | WriteConnMaxIdleTime idle =>
      set_writePoolOpts (set_ConnMaxIdleTime (Some idle) (writePoolOpts po)) po
  | ReadConnMaxLifetime lifetime =>
      set_readPoolOpts (set_ConnMaxLifetime (Some lifetime) (readPoolOpts po)) po
  | ReadConnMaxLifetimeJitter jitter =>
      set_readPoolOpts (set_ConnMaxLifetimeJitter (Some jitter) (readPoolOpts po)) po
  | WriteConnMaxLifetime lifetime =>
      set_writePoolOpts (set_ConnMaxLifetime (Some lifetime) (writePoolOpts po)) po
  | WriteConnMaxLifetimeJitter jitter =>
      set_writePoolOpts (set_ConnMaxLifetimeJitter (Some jitter) (writePoolOpts po)) po
  | ReadConnsMinOpen conns =>
      set_readPoolOpts (set_MinOpenConns (Some conns) (readPoolOpts po)) po
  | WriteConnsMinOpen conns =>
      set_writePoolOpts (set_MinOpenConns (Some conns) (writePoolOpts po)) po
  | ReadConnsMaxOpen conns =>
      set_readPoolOpts (set_MaxOpenConns (Some conns) (readPoolOpts po)) po
  | WriteConnsMaxOpen conns =>
      set_writePoolOpts (set_MaxOpenConns (Some conns) (writePoolOpts po)) po
  | WatchBufferLength n => set_watchBufferLength n po
  | RevisionQuantization bucketSize => set_revisionQuantization bucketSize po
  | FollowerReadDelay delay => set_followerReadDelay delay po
  | MaxRevisionStalenessPercent stalenessPercent =>
      set_maxRevisionStalenessPercent stalenessPercent po
  | GCWindow window => set_gcWindow window po
  | MaxRetries n => set_maxRetries n po
  | OverlapStrategy strategy => set_overlapStrategy strategy po
  | OverlapKey key => set_overlapKey key po
  | DisableStats disable => set_disableStats disable po
  | WithEnablePrometheusStats b => set_enablePrometheusStats b po
  end.

(** The struct literal [generateConfig] starts from; the two pool option
    structs are not mentioned there and keep their zero value. *)
Definition initialConfig : crdbOptions := {|
  readPoolOpts := zeroPoolOptions;
  writePoolOpts := zeroPoolOptions;
  gcWindow := 24 * Hour;
  watchBufferLength := defaultWatchBufferLength;
  revisionQuantization := defaultRevisionQuantization;
  followerReadDelay := defaultFollowerReadDelay;
  maxRevisionStalenessPercent := defaultMaxRevisionStalenessPercent;
  splitAtUsersetCount := defaultSplitSize;
  maxRetries := defaultMaxRetries;
  overlapKey := defaultOverlapKey;
  overlapStrategy := defaultOverlapStrategy;
  disableStats := false;
  enablePrometheusStats := defaultEnablePrometheusStats
|}.

(** [for _, option := range options { option(&computed) }] *)
Definition applyOptions (options : list Option) (computed : crdbOptions) : crdbOptions :=
  fold_left (fun computed option => call option computed) options computed.

(** [generateConfig]: Go returns the computed struct together with the
    error, also on the error path. *)
Definition generateConfig (options : list Option) : crdbOptions * option error :=
  let computed := applyOptions options initialConfig in
  if revisionQuantization computed >=? gcWindow computed
  then (computed, Some (errQuantizationTooLarge (revisionQuantization computed) (gcWindow computed)))
  else (computed, None).

(** ** Fields, for statements that range over all of them *)

Inductive poolField :=
| fConnHealthCheckInterval | fConnMaxIdleTime | fConnMaxLifetime
| fConnMaxLifetimeJitter | fMinOpenConns | fMaxOpenConns.

Inductive field :=
| fReadPool (p : poolField)
| fWritePool (p : poolField)
| fWatchBufferLength | fRevisionQuantization | fFollowerReadDelay
| fMaxRevisionStalenessPercent | fGcWindow | fMaxRetries
| fSplitAtUsersetCount | fOverlapStrategy | fOverlapKey | fDisableStats
| fEnablePrometheusStats.

Inductive value :=
| VDuration (d : Duration)
| VPtrDuration (d : option Duration)
| VPtrInt (n : option Z)
| VUint (n : Z)
| VFloat (x : float)
| VString (s : string)
| VBool (b : bool).

Definition getPool (f : poolField) (p : PoolOptions) : value :=
  match f with
  | fConnHealthCheckInterval => VPtrDuration (ConnHealthCheckInterval p)
  | fConnMaxIdleTime => VPtrDuration (ConnMaxIdleTime p)
  | fConnMaxLifetime => VPtrDuration (ConnMaxLifetime p)
  | fConnMaxLifetimeJitter => VPtrDuration (ConnMaxLifetimeJitter p)
  | fMinOpenConns => VPtrInt (MinOpenConns p)
  | fMaxOpenConns => VPtrInt (MaxOpenConns p)
  end.

(** The content of a field of the struct. *)
Definition get (f : field) (po : crdbOptions) : value :=
  match f with
  | fReadPool p => getPool p (readPoolOpts po)
  | fWritePool p => getPool p (writePoolOpts po)
  | fWatchBufferLength => VUint (watchBufferLength po)
  | fRevisionQuantization => VDuration (revisionQuantization po)
  | fFollowerReadDelay => VDuration (followerReadDelay po)
  | fMaxRevisionStalenessPercent => VFloat (maxRevisionStalenessPercent po)
  | fGcWindow => VDuration (gcWindow po)
  | fMaxRetries => VUint (maxRetries po)
  | fSplitAtUsersetCount => VUint (splitAtUsersetCount po)
  | fOverlapStrategy => VString (overlapStrategy po)
  | fOverlapKey => VString (overlapKey po)
  | fDisableStats => VBool (disableStats po)
  | fEnablePrometheusStats => VBool (enablePrometheusStats po)
  end.

(** The field named on the left of the assignment in an option's body. *)
Definition target (option : Option) : field :=
  match option with
  | SplitAtUsersetCount _ => fSplitAtUsersetCount
  | ReadConnHealthCheckInterval _ => fReadPool fConnHealthCheckInterval
  | WriteConnHealthCheckInterval _ => fWritePool fConnHealthCheckInterval
  | ReadConnMaxIdleTime _ => fReadPool fConnMaxIdleTime
  | WriteConnMaxIdleTime _ => fWritePool fConnMaxIdleTime
  | ReadConnMaxLifetime _ => fReadPool fConnMaxLifetime
  | ReadConnMaxLifetimeJitter _ => fReadPool fConnMaxLifetimeJitter
  | WriteConnMaxLifetime _ => fWritePool fConnMaxLifetime
  | WriteConnMaxLifetimeJitter _ => fWritePool fConnMaxLifetimeJitter
  | ReadConnsMinOpen _ => fReadPool fMinOpenConns
  | WriteConnsMinOpen _ => fWritePool fMinOpenConns
  | ReadConnsMaxOpen _ => fReadPool fMaxOpenConns
  | WriteConnsMaxOpen _ => fWritePool fMaxOpenConns
  | WatchBufferLength _ => fWatchBufferLength
  | RevisionQuantization _ => fRevisionQuantization
  | FollowerReadDelay _ => fFollowerReadDelay
  | MaxRevisionStalenessPercent _ => fMaxRevisionStalenessPercent
  | GCWindow _ => fGcWindow
  | MaxRetries _ => fMaxRetries
  | OverlapStrategy _ => fOverlapStrategy
  | OverlapKey _ => fOverlapKey
  | DisableStats _ => fDisableStats
  | WithEnablePrometheusStats _ => fEnablePrometheusStats
  end.

(** The value on the right of that assignment. *)
Definition assigned (option : Option) : value :=
  match option with
  | SplitAtUsersetCount n => VUint n
  | ReadConnHealthCheckInterval d | WriteConnHealthCheckInterval d
  | ReadConnMaxIdleTime d | WriteConnMaxIdleTime d
  | ReadConnMaxLifetime d | ReadConnMaxLifetimeJitter d
  | WriteConnMaxLifetime d | WriteConnMaxLifetimeJitter d => VPtrDuration (Some d)
  | ReadConnsMinOpen n | WriteConnsMinOpen n
  | ReadConnsMaxOpen n | WriteConnsMaxOpen n => VPtrInt (Some n)
  | WatchBufferLength n => VUint n
  | RevisionQuantization d => VDuration d
  | FollowerReadDelay d => VDuration d
  | MaxRevisionStalenessPercent x => VFloat x
  | GCWindow d => VDuration d
  | MaxRetries n => VUint n
  | OverlapStrategy s => VString s
  | OverlapKey s => VString s
  | DisableStats b => VBool b
  | WithEnablePrometheusStats b => VBool b
  end.

(** No option of the list assigns field [f]. *)
Definition untouched (f : field) (options : list Option) : Prop :=
  Forall (fun option => target option <> f) options.

#[global] Instance poolField_eq_dec : EqDecision poolField.
Proof. solve_decision. Defined.

#[global] Instance field_eq_dec : EqDecision field.
Proof. solve_decision. Defined.

(** What the last option of the list that assigns field [f] assigns to it;
    [None] when no option of the list does. *)
Definition lastAssigned (f : field) (options : list Option) : option value :=
  fold_left
    (fun acc option => if decide (target option = f) then Some (assigned option) else acc)
    options None.

End Crdb.

(* ===================================================================== *)
(** * The separating-context datastore proxy                              *)
(* ===================================================================== *)

Module Proxy.

(** ** Contexts *)

Definition Time := Z.

(** Modelled from the spec: the tracing library is missing. A span is the
    no-op span or a recording span with its identifier. *)
Inductive Span :=
| noopSpan
| recordingSpan (spanID : Z).

(** Modelled from the spec: the logging package is missing. A logger is
    known by its name. *)
Definition Logger := string.

(** Modelled from the spec: [context.Context] belongs to the standard
    library, which is missing. A context is what
    [SeparateContextWithTracing] and its callers can observe of it: the
    deadline, the cancel functions of the [WithCancel] / [WithTimeout]
    ancestors that close its [Done] channel, the span and the logger stored
    in it, and the remaining request-scoped values. *)
Record Context := mkContext {
  deadline : option Time;
  cancelers : list nat;
  spanValue : option Span;
  loggerValue : option Logger;
  otherValues : list (string * string)
}.

(** Modelled from the spec: [context.Background()], never cancelled,
    without deadline and without values. *)
Definition Background : Context := mkContext None [] None None [].

(** Modelled from the spec: [context.WithCancel]; the child is done when
    its own cancel function or one of the parent's is called. *)
Definition WithCancel (cancel : nat) (parent : Context) : Context :=
  mkContext (deadline parent) (cancel :: cancelers parent)
    (spanValue parent) (loggerValue parent) (otherValues parent).

(** Modelled from the spec: [context.WithDeadline]; the earlier of the two
    deadlines holds. *)
Definition WithDeadline (d : Time) (cancel : nat) (parent : Context) : Context :=
  mkContext
    (match deadline parent with
     | Some d' => Some (Z.min d d')
     | None => Some d
     end)
    (cancel :: cancelers parent)
    (spanValue parent) (loggerValue parent) (otherValues parent).

(** Modelled from the spec: [context.WithValue]. *)
Definition WithValue (key val : string) (parent : Context) : Context :=
  mkContext (deadline parent) (cancelers parent)
    (spanValue parent) (loggerValue parent) ((key, val) :: otherValues parent).

(** Modelled from the spec: [trace.SpanFromContext], the span of the
    context, the no-op span when there is none. *)
Definition SpanFromContext (ctx : Context) : Span :=
  match spanValue ctx with
  | Some span => span
  | None => noopSpan
  end.

(** Modelled from the spec: [trace.ContextWithSpan(parent, span)]. *)
Definition ContextWithSpan (parent : Context) (span : Span) : Context :=
  mkContext (deadline parent) (cancelers parent)
    (Some span) (loggerValue parent) (otherValues parent).

(** Modelled from the spec: [log.Ctx(ctx)], the logger associated with the
    context; [None] is the [nil] the caller tests for. *)
Definition log_Ctx (ctx : Context) : option Logger := loggerValue ctx.

(** Modelled from the spec: [logger.WithContext(ctx)]. *)
Definition WithContext (l : Logger) (ctx : Context) : Context :=
  mkContext (deadline ctx) (cancelers ctx)
    (spanValue ctx) (Some l) (otherValues ctx).

(** The moment at which a context is looked at: the wall clock and the
    cancel functions that have been called so far. *)
Record World := mkWorld {
  now : Time;
  cancelled : list nat
}.

Inductive ctxError := Canceled | DeadlineExceeded.

(** Modelled from the spec: [ctx.Err()], non-nil once the context is done:
    one of its cancel functions has been called, or its deadline has
    passed. *)
Definition Err (w : World) (ctx : Context) : option ctxError :=
  if existsb (fun cancel => existsb (Nat.eqb cancel) (cancelled w)) (cancelers ctx)
  then Some Canceled
  else match deadline ctx with
       | Some d => if d <=? now w then Some DeadlineExceeded else None
       | None => None
       end.

(** ** [SeparateContextWithTracing] *)
Definition SeparateContextWithTracing (ctx : Context) : Context :=
  let span := SpanFromContext ctx in
  let ctxWithObservability := ContextWithSpan Background span in
  let loggerFromContext := log_Ctx ctx in
  match loggerFromContext with
  | Some l => WithContext l ctxWithObservability
  | None => ctxWithObservability
  end.

(** ** The datastore interfaces *)

(** Modelled from the spec: the types of the [datastore] package are
    missing. The argument and result types that the proxy only passes along
    are left abstract. *)
Record Types := mkTypes {
  Revision : Type;
  TxUserFunc : Type;
  error : Type;
  WatchChannels : Type;
  FeaturesT : Type;
  Stats : Type;
  ReadyStateT : Type;
  CaveatDefinition : Type;
  NamespaceDefinition : Type;
  RevisionedCaveat : Type;
  RevisionedNamespace : Type;
  RelationshipsFilter : Type;
  SubjectsFilter : Type;
  QueryOptions : Type;
  ReverseQueryOptions : Type;
  RelationshipIterator : Type
}.

Section Interfaces.
Variable T : Types.

(** Modelled from the spec: the declaration of [datastore.Reader] is
    missing; the signatures are those of the methods of [ctxReader]. *)
Record Reader := mkReader {
  ReadCaveatByName : Context -> string ->
    option (CaveatDefinition T) * Revision T * option (error T);
  ListAllCaveats : Context -> list (RevisionedCaveat T) * option (error T);
  LookupCaveatsWithNames : Context -> list string ->
    list (RevisionedCaveat T) * option (error T);
  ListAllNamespaces : Context -> list (RevisionedNamespace T) * option (error T);
  LookupNamespacesWithNames : Context -> list string ->
    list (RevisionedNamespace T) * option (error T);
  ReadNamespaceByName : Context -> string ->
    option (NamespaceDefinition T) * Revision T * option (error T);
  QueryRelationships : Context -> RelationshipsFilter T -> list (QueryOptions T) ->
    RelationshipIterator T * option (error T);
  ReverseQueryRelationships : Context -> SubjectsFilter T ->
    list (ReverseQueryOptions T) -> RelationshipIterator T * option (error T)
}.

(** Modelled from the spec: the declaration of [datastore.Datastore] is
    missing; the signatures are those of the methods of [ctxProxy]. *)
Record Datastore := mkDatastore {
  ReadWriteTx : Context -> TxUserFunc T -> Revision T * option (error T);
  OptimizedRevision : Context -> Revision T * option (error T);
  CheckRevision : Context -> Revision T -> option (error T);
  HeadRevision : Context -> Revision T * option (error T);
  RevisionFromString : string -> Revision T * option (error T);
  Watch : Context -> Revision T -> WatchChannels T;
  Features : Context -> option (FeaturesT T) * option (error T);
  Statistics : Context -> Stats T * option (error T);
  ReadyState : Context -> ReadyStateT T * option (error T);
  Close : option (error T);
  SnapshotReader : Revision T -> Reader
}.

(** [type ctxReader struct{ delegate datastore.Reader }] and its methods. *)
Definition ctxReader (delegate : Reader) : Reader := {|
  ReadCaveatByName ctx name :=
    ReadCaveatByName delegate (SeparateContextWithTracing ctx) name;
  ListAllCaveats ctx :=
    ListAllCaveats delegate (SeparateContextWithTracing ctx);
  LookupCaveatsWithNames ctx caveatNames :=
    LookupCaveatsWithNames delegate (SeparateContextWithTracing ctx) caveatNames;
  ListAllNamespaces ctx :=
    ListAllNamespaces delegate (SeparateContextWithTracing ctx);
  LookupNamespacesWithNames ctx nsNames :=
    LookupNamespacesWithNames delegate (SeparateContextWithTracing ctx) nsNames;
  ReadNamespaceByName ctx nsName :=
    ReadNamespaceByName delegate (SeparateContextWithTracing ctx) nsName;
  QueryRelationships ctx filter options :=
    QueryRelationships delegate (SeparateContextWithTracing ctx) filter options;
  ReverseQueryRelationships ctx subjectsFilter options :=
    ReverseQueryRelationships delegate (SeparateContextWithTracing ctx)
      subjectsFilter options
|}.

(** [type ctxProxy struct{ delegate datastore.Datastore }] and its methods,
    as built by [NewSeparatingContextDatastoreProxy]. *)
Definition ctxProxy (delegate : Datastore) : Datastore := {|
  ReadWriteTx ctx f := ReadWriteTx delegate ctx f;
  OptimizedRevision ctx := OptimizedRevision delegate (SeparateContextWithTracing ctx);
  CheckRevision ctx revision :=
    CheckRevision delegate (SeparateContextWithTracing ctx) revision;
  HeadRevision ctx := HeadRevision delegate (SeparateContextWithTracing ctx);
  RevisionFromString serialized := RevisionFromString delegate serialized;
  Watch ctx afterRevision := Watch delegate ctx afterRevision;
  Features ctx := Features delegate (SeparateContextWithTracing ctx);
  Statistics ctx := Statistics delegate (SeparateContextWithTracing ctx);
  ReadyState ctx := ReadyState delegate (SeparateContextWithTracing ctx);
  Close := Close delegate;
  SnapshotReader rev :=
    let delegateReader := SnapshotReader delegate rev in
    ctxReader delegateReader
|}.

Definition NewSeparatingContextDatastoreProxy (d : Datastore) : Datastore :=
  ctxProxy d.

End Interfaces.

Arguments ReadCaveatByName {T}.
Arguments ListAllCaveats {T}.
Arguments LookupCaveatsWithNames {T}.
Arguments ListAllNamespaces {T}.
Arguments LookupNamespacesWithNames {T}.
Arguments ReadNamespaceByName {T}.
Arguments QueryRelationships {T}.
Arguments ReverseQueryRelationships {T}.
Arguments ReadWriteTx {T}.
Arguments OptimizedRevision {T}.
Arguments CheckRevision {T}.
Arguments HeadRevision {T}.
Arguments RevisionFromString {T}.
Arguments Watch {T}.
Arguments Features {T}.
Arguments Statistics {T}.
Arguments ReadyState {T}.
Arguments Close {T}.
Arguments SnapshotReader {T}.
Arguments ctxReader {T}.
Arguments ctxProxy {T}.
Arguments NewSeparatingContextDatastoreProxy {T}.

(** What the claim asks of the context [ctx'] that reaches the delegate
    when the caller's context is [ctx]: the span and the logger of [ctx],
    nothing else of it, no deadline, and no cancellation whatever happens
    to [ctx]. *)
Definition severed (ctx ctx' : Context) : Prop :=
  SpanFromContext ctx' = SpanFromContext ctx
  /\ log_Ctx ctx' = log_Ctx ctx
  /\ otherValues ctx' = []
  /\ deadline ctx' = None
  /\ cancelers ctx' = []
  /\ forall w, Err w ctx' = None.

(** A delegate for observing the proxy: the result types are [Context], and
    each method that takes a context hands it back as its result. *)
Definition observerTypes : Types :=
  mkTypes Context unit Context Context Context Context Context unit unit
    Context Context unit unit unit unit Context.

Definition observerReader : Reader observerTypes :=
  mkReader observerTypes
    (fun ctx _ => (None, ctx, None))
    (fun ctx => ([ctx], None))
    (fun ctx _ => ([ctx], None))
    (fun ctx => ([ctx], None))
    (fun ctx _ => ([ctx], None))
    (fun ctx _ => (None, ctx, None))
    (fun ctx _ _ => (ctx, None))
    (fun ctx _ _ => (ctx, None)).

Definition observer : Datastore observerTypes :=
  mkDatastore observerTypes
    (fun ctx _ => (ctx, None))
    (fun ctx => (ctx, None))
    (fun ctx _ => Some ctx)
    (fun ctx => (ctx, None))
    (fun _ => (Background, None))
    (fun ctx _ => ctx)
    (fun ctx => (Some ctx, None))
    (fun ctx => (ctx, None))
    (fun ctx => (ctx, None))
    None
    (fun _ => observerReader).

(** Two readers, or two datastores, that answer every call alike. *)
Definition sameReader {T : Types} (a b : Reader T) : Prop :=
  (forall ctx name, ReadCaveatByName a ctx name = ReadCaveatByName b ctx name)
  /\ (forall ctx, ListAllCaveats a ctx = ListAllCaveats b ctx)
  /\ (forall ctx names, LookupCaveatsWithNames a ctx names = LookupCaveatsWithNames b ctx names)
  /\ (forall ctx, ListAllNamespaces a ctx = ListAllNamespaces b ctx)
  /\ (forall ctx names,
        LookupNamespacesWithNames a ctx names = LookupNamespacesWithNames b ctx names)
  /\ (forall ctx name, ReadNamespaceByName a ctx name = ReadNamespaceByName b ctx name)
  /\ (forall ctx filter options,
        QueryRelationships a ctx filter options = QueryRelationships b ctx filter options)
  /\ (forall ctx filter options,
        ReverseQueryRelationships a ctx filter options
        = ReverseQueryRelationships b ctx filter options).

Definition sameDatastore {T : Types} (a b : Datastore T) : Prop :=
  (forall ctx f, ReadWriteTx a ctx f = ReadWriteTx b ctx f)
  /\ (forall ctx, OptimizedRevision a ctx = OptimizedRevision b ctx)
  /\ (forall ctx revision, CheckRevision a ctx revision = CheckRevision b ctx revision)
  /\ (forall ctx, HeadRevision a ctx = HeadRevision b ctx)
  /\ (forall serialized, RevisionFromString a serialized = RevisionFromString b serialized)
  /\ (forall ctx afterRevision, Watch a ctx afterRevision = Watch b ctx afterRevision)
  /\ (forall ctx, Features a ctx = Features b ctx)
  /\ (forall ctx, Statistics a ctx = Statistics b ctx)
  /\ (forall ctx, ReadyState a ctx = ReadyState b ctx)
  /\ Close a = Close b
  /\ (forall rev, sameReader (SnapshotReader a rev) (SnapshotReader b rev)).

(** The proxy as the struct that [NewSeparatingContextDatastoreProxy]
    allocates, with its field [delegate]. [Unwrap] is the one method of
    [ctxProxy] that is not a method of [datastore.Datastore]: it returns the
    delegate. The methods of the interface are those of [ctxProxy] above. *)
Record ctxProxyStruct (T : Types) := mkCtxProxyStruct {
  delegate : Datastore T
}.

Arguments mkCtxProxyStruct {T}.
Arguments delegate {T}.

Definition Unwrap {T : Types} (p : ctxProxyStruct T) : Datastore T :=
  delegate p.

(** The struct seen through the interface [datastore.Datastore]. *)
Definition asDatastore {T : Types} (p : ctxProxyStruct T) : Datastore T :=
  ctxProxy (delegate p).

End Proxy.

(* ===================================================================== *)
(** * Regular expressions of the validation rules                         *)
(* ===================================================================== *)

Module Regexp.

(** The patterns of core.proto are built from character classes, literal
    characters, concatenation, alternation, [?] and counted repetition
    [{n,m}] / [{n,}]. Every pattern is anchored by [^] and [$], so that
    matching is matching of the whole string. Strings are byte strings; all
    classes are ASCII, so a byte above 127 is in none of them. *)

Inductive item :=
| Range (lo hi : ascii)
| Char (c : ascii).

Definition in_item (c : ascii) (it : item) : bool :=
  match it with
  | Range lo hi =>
      (nat_of_ascii lo <=? nat_of_ascii c)%nat && (nat_of_ascii c <=? nat_of_ascii hi)%nat
  | Char x => Ascii.eqb x c
  end.

Definition in_class (cl : list item) (c : ascii) : bool :=
  existsb (in_item c) cl.

Inductive regexp :=
| Fail
| Eps
| Class (cl : list item)
| Seq (a b : regexp)
| Alt (a b : regexp)
| Repeat (r : regexp) (min : nat) (max : option nat).

(** [r?] *)
Definition Opt (r : regexp) : regexp := Alt r Eps.

(** A literal string, such as the three dots or the star. *)
Fixpoint Lit (l : list ascii) : regexp :=
  match l with
  | [] => Eps
  | c :: l' => Seq (Class [Char c]) (Lit l')
  end.

(** Does the expression match the empty string? *)
Fixpoint nullable (r : regexp) : bool :=
  match r with
  | Fail => false
  | Eps => true
  | Class _ => false
  | Seq a b => nullable a && nullable b
  | Alt a b => nullable a || nullable b
  | Repeat r min max =>
      match max with Some m => (min <=? m)%nat | None => true end
      && ((min =? 0)%nat || nullable r)
  end.

(** What is left of the expression after reading the character [c]. *)
Fixpoint deriv (c : ascii) (r : regexp) : regexp :=
  match r with
  | Fail => Fail
  | Eps => Fail
  | Class cl => if in_class cl c then Eps else Fail
  | Seq a b =>
      if nullable a
      then Alt (Seq (deriv c a) b) (deriv c b)
      else Seq (deriv c a) b
  | Alt a b => Alt (deriv c a) (deriv c b)
  | Repeat r min max =>
      match max with
      | Some 0%nat => Fail
      | Some (S m) => Seq (deriv c r) (Repeat r (Nat.pred min) (Some m))
      | None => Seq (deriv c r) (Repeat r (Nat.pred min) None)
      end
  end.

Fixpoint matches (r : regexp) (s : list ascii) : bool :=
  match s with
  | [] => nullable r
  | c :: s' => matches (deriv c r) s'
  end.

(** [regexp.MatchString] for an anchored pattern. *)
Definition MatchString (r : regexp) (s : string) : bool :=
  matches r (list_ascii_of_string s).

End Regexp.

(* ===================================================================== *)
(** * Messages of core.proto and their validation rules                   *)
(* ===================================================================== *)

Module Core.
Import Regexp.

(** ** Patterns *)

Definition lower : list item := [Range "a" "z"].
Definition lower_digit : list item := [Range "a" "z"; Range "0" "9"].
Definition lower_digit_underscore : list item :=
  [Range "a" "z"; Range "0" "9"; Char "_"].

(** [[a-z][a-z0-9_]{1,62}[a-z0-9]], the body of the pattern of
    [Relation.name], [ComputedUserset.relation] and [Tupleset.relation]. *)
Definition identifier_pattern : regexp :=
  Seq (Class lower)
    (Seq (Repeat (Class lower_digit_underscore) 1 (Some 62%nat))
       (Class lower_digit)).

(** [^([a-z][a-z0-9_]{1,61}[a-z0-9]/)?[a-z][a-z0-9_]{1,62}[a-z0-9]$] *)
Definition namespace_pattern : regexp :=
  Seq (Opt (Seq (Class lower)
              (Seq (Repeat (Class lower_digit_underscore) 1 (Some 61%nat))
                 (Seq (Class lower_digit) (Class [Char "/"])))))
    identifier_pattern.

(** The pattern of [object_id]: one or more characters of the class
    [[a-zA-Z0-9/_|\-=+]], or else the single character star. *)
Definition object_id_chars : list item :=
  [Range "a" "z"; Range "A" "Z"; Range "0" "9";
   Char "/"; Char "_"; Char "|"; Char "-"; Char "="; Char "+"].

Definition object_id_pattern : regexp :=
  Alt (Repeat (Class object_id_chars) 1 None) (Lit ["*"%char]).

(** [^(\.\.\.|[a-z][a-z0-9_]{1,62}[a-z0-9])$] *)
Definition relation_pattern : regexp :=
  Alt (Lit ["."%char; "."%char; "."%char]) identifier_pattern.

(** The pattern of a caveat name: [[a-zA-Z0-9_][a-zA-Z0-9/_|-]{0,127}], or
    else the single character star. *)
Definition caveat_name_pattern : regexp :=
  Alt (Seq (Class [Range "a" "z"; Range "A" "Z"; Range "0" "9"; Char "_"])
         (Repeat (Class [Range "a" "z"; Range "A" "Z"; Range "0" "9";
                         Char "/"; Char "_"; Char "|"; Char "-"])
            0 (Some 127%nat)))
    (Lit ["*"%char]).

(** ** Validation errors

    The generated [Validate] methods return the first violated rule, in the
    order of the fields of the message, or [nil]. An error names the field
    and the rule. *)
Inductive Rule :=
| Required
| MinItems (n : nat)
| MaxItems (n : nat)
| PairsBetween (lo hi : nat)
| LenBetween (lo hi : nat)
| MaxBytes (n : nat)
| Pattern
| DefinedOnly
| AnyIn
| Embedded.

Record ValidationError := mkValidationError {
  field : string;
  rule : Rule
}.

Definition violation (violated : bool) (f : string) (r : Rule) : option ValidationError :=
  if violated then Some (mkValidationError f r) else None.

(** Run the checks in order and stop at the first error. *)
Definition andThen (first next : option ValidationError) : option ValidationError :=
  match first with
  | Some e => Some e
  | None => next
  end.

Declare Scope validate_scope.
Notation "a ;; b" := (andThen a b)
  (at level 100, b at level 200, right associativity) : validate_scope.
Local Open Scope validate_scope.

(** The call of [Validate] on an embedded message: a failure is wrapped
    under the name of the field. [Validate] on a nil message is nil. *)
Definition embedded {M : Type} (f : string) (validate : M -> option ValidationError)
    (m : option M) : option ValidationError :=
  match m with
  | Some m' =>
      match validate m' with
      | Some _ => Some (mkValidationError f Embedded)
      | None => None
      end
  | None => None
  end.

Definition required {M : Type} (f : string) (m : option M) : option ValidationError :=
  match m with
  | Some _ => None
  | None => Some (mkValidationError f Required)
  end.

(** String rules [max_bytes] and [pattern], in the order of the generated
    code. *)
Definition string_rules (f : string) (max_bytes : nat) (pattern : regexp) (v : string)
  : option ValidationError :=
  violation (max_bytes <? String.length v)%nat f (MaxBytes max_bytes) ;;
  violation (negb (MatchString pattern v)) f Pattern.

(** ** Messages. A message-typed field is a pointer: [None] is nil. *)

Record SourcePosition := mkSourcePosition {
  zero_indexed_line_number : Z;
  zero_indexed_column_position : Z
}.

Definition SourcePosition_Validate (m : SourcePosition) : option ValidationError := None.

(** [google.protobuf.Any] *)
Record Any := mkAny {
  type_url : string;
  value : list Byte.byte
}.

Record Metadata := mkMetadata {
  metadata_message : list (option Any)
}.

Definition Metadata_MetadataMessage_InLookup : list string :=
  ["type.googleapis.com/impl.v1.DocComment";
   "type.googleapis.com/impl.v1.RelationMetadata"].

Definition Metadata_Validate (m : Metadata) : option ValidationError :=
  violation (length (metadata_message m) <? 1)%nat "MetadataMessage" (MinItems 1) ;;
  (fix items (l : list (option Any)) : option ValidationError :=
     match l with
     | [] => None
     | item :: rest =>
         required "MetadataMessage[idx]" item ;;
         match item with
         | Some a =>
             violation
               (negb (existsb (String.eqb (type_url a)) Metadata_MetadataMessage_InLookup))
               "MetadataMessage[idx]" AnyIn
         | None => None
         end ;;
         items rest
     end) (metadata_message m).

Inductive CaveatTypeReference :=
| mkCaveatTypeReference (type_name : string)
    (child_types : list (option CaveatTypeReference)).

Fixpoint CaveatTypeReference_Validate (m : CaveatTypeReference) : option ValidationError :=
  match m with
  | mkCaveatTypeReference _ child_types =>
      violation (1 <? length child_types)%nat "ChildTypes" (MaxItems 1) ;;
      (fix items (l : list (option CaveatTypeReference)) : option ValidationError :=
         match l with
         | [] => None
         | item :: rest =>
             match item with
             | Some i =>
                 match CaveatTypeReference_Validate i with
                 | Some _ => Some (mkValidationError "ChildTypes[idx]" Embedded)
                 | None => None
                 end
             | None => None
             end ;;
             items rest
         end) child_types
  end.

Record CaveatDefinition := mkCaveatDefinition {
  name : string;
  serialized_expression : list Byte.byte;
  parameter_types : gmap string (option CaveatTypeReference);
  metadata : option Metadata;
  source_position : option SourcePosition
}.

(** The values of the map are validated in the order of the sorted keys;
    which of several failing values is reported does not matter here. *)
Definition CaveatDefinition_Validate (m : CaveatDefinition) : option ValidationError :=
  string_rules "Name" 128 caveat_name_pattern (name m) ;;
  violation ((4096 <? length (serialized_expression m))%nat)
    "SerializedExpression" (LenBetween 0 4096) ;;
  violation ((size (parameter_types m) <? 1)%nat || (20 <? size (parameter_types m))%nat)
    "ParameterTypes" (PairsBetween 1 20) ;;
  (fix pairs (l : list (string * option CaveatTypeReference)) : option ValidationError :=
     match l with
     | [] => None
     | (key, val) :: rest =>
         embedded "ParameterTypes[key]" CaveatTypeReference_Validate val ;;
         pairs rest
     end) (map_to_list (parameter_types m)) ;;
  embedded "Metadata" Metadata_Validate (metadata m) ;;
  embedded "SourcePosition" SourcePosition_Validate (source_position m).

Record ObjectAndRelation := mkObjectAndRelation {
  namespace : string;
  object_id : string;
  relation : string
}.

Definition ObjectAndRelation_Validate (m : ObjectAndRelation) : option ValidationError :=
  string_rules "Namespace" 128 namespace_pattern (namespace m) ;;
  string_rules "ObjectId" 1024 object_id_pattern (object_id m) ;;
  string_rules "Relation" 64 relation_pattern (relation m).

(** [ComputedUserset.Object] is an open enum: any [int32] can be stored;
    [TUPLE_OBJECT = 0] and [TUPLE_USERSET_OBJECT = 1] are the defined
    values. *)
Record ComputedUserset := mkComputedUserset {
  object : Z;
  cu_relation : string;
  cu_source_position : option SourcePosition
}.

Definition TUPLE_OBJECT : Z := 0.
Definition TUPLE_USERSET_OBJECT : Z := 1.

Definition ComputedUserset_Validate (m : ComputedUserset) : option ValidationError :=
  violation (negb ((object m =? TUPLE_OBJECT) || (object m =? TUPLE_USERSET_OBJECT)))
    "Object" DefinedOnly ;;
  string_rules "Relation" 64 identifier_pattern (cu_relation m) ;;
  embedded "SourcePosition" SourcePosition_Validate (cu_source_position m).

Record Tupleset := mkTupleset {
  ts_relation : string
}.

Definition Tupleset_Validate (m : Tupleset) : option ValidationError :=
  string_rules "Relation" 64 identifier_pattern (ts_relation m).

Record TupleToUserset := mkTupleToUserset {
  tupleset : option Tupleset;
  computed_userset : option ComputedUserset;
  ttu_source_position : option SourcePosition
}.

Definition TupleToUserset_Validate (m : TupleToUserset) : option ValidationError :=
  required "Tupleset" (tupleset m) ;;
  embedded "Tupleset" Tupleset_Validate (tupleset m) ;;
  required "ComputedUserset" (computed_userset m) ;;
  embedded "ComputedUserset" ComputedUserset_Validate (computed_userset m) ;;
  embedded "SourcePosition" SourcePosition_Validate (ttu_source_position m).

(** [SetOperation.Child.This] and [SetOperation.Child.Nil] are empty. *)
Inductive This := mkThis.
Inductive Nil := mkNil.

(** [UsersetRewrite], [SetOperation] and [SetOperation.Child] refer to each
    other. A oneof is an optional sum: [None] when no case is set. *)
Inductive UsersetRewrite :=
| mkUsersetRewrite (rewrite_operation : option RewriteOperation)
    (source_position : option SourcePosition)
with RewriteOperation :=
| UsersetRewrite_Union (union : option SetOperation)
| UsersetRewrite_Intersection (intersection : option SetOperation)
| UsersetRewrite_Exclusion (exclusion : option SetOperation)
with SetOperation :=
| mkSetOperation (child : list (option SetOperation_Child))
with SetOperation_Child :=
| mkSetOperation_Child (child_type : option ChildType)
    (source_position : option SourcePosition)
    (operation_path : list Z)
with ChildType :=
| SetOperation_Child_XThis (_this : option This)
| SetOperation_Child_ComputedUserset (computed_userset : option ComputedUserset)
| SetOperation_Child_TupleToUserset (tuple_to_userset : option TupleToUserset)
| SetOperation_Child_UsersetRewrite (userset_rewrite : option UsersetRewrite)
| SetOperation_Child_XNil (_nil : option Nil).

Definition GetChild (m : SetOperation) : list (option SetOperation_Child) :=
  match m with mkSetOperation child => child end.

Definition GetRewriteOperation (m : UsersetRewrite) : option RewriteOperation :=
  match m with mkUsersetRewrite op _ => op end.

Definition GetChildType (m : SetOperation_Child) : option ChildType :=
  match m with mkSetOperation_Child t _ _ => t end.

Definition GetOperationPath (m : SetOperation_Child) : list Z :=
  match m with mkSetOperation_Child _ _ p => p end.

Fixpoint UsersetRewrite_Validate (m : UsersetRewrite) : option ValidationError :=
  match m with
  | mkUsersetRewrite rewrite_operation source_position =>
      match rewrite_operation with
      | Some (UsersetRewrite_Union o) =>
          required "Union" o ;;
          match o with
          | Some op => match SetOperation_Validate op with
                       | Some _ => Some (mkValidationError "Union" Embedded)
                       | None => None
                       end
          | None => None
          end
      | Some (UsersetRewrite_Intersection o) =>
          required "Intersection" o ;;
          match o with
          | Some op => match SetOperation_Validate op with
                       | Some _ => Some (mkValidationError "Intersection" Embedded)
                       | None => None
                       end
          | None => None
          end
      | Some (UsersetRewrite_Exclusion o) =>
          required "Exclusion" o ;;
          match o with
          | Some op => match SetOperation_Validate op with
                       | Some _ => Some (mkValidationError "Exclusion" Embedded)
                       | None => None
                       end
          | None => None
          end
      | None => Some (mkValidationError "RewriteOperation" Required)
      end ;;
      embedded "SourcePosition" SourcePosition_Validate source_position
  end
with SetOperation_Validate (m : SetOperation) : option ValidationError :=
  match m with
  | mkSetOperation child =>
      violation (length child <? 1)%nat "Child" (MinItems 1) ;;
      (fix items (l : list (option SetOperation_Child)) : option ValidationError :=
         match l with
         | [] => None
         | item :: rest =>
             required "Child[idx]" item ;;
             match item with
             | Some c => match SetOperation_Child_Validate c with
                         | Some _ => Some (mkValidationError "Child[idx]" Embedded)
                         | None => None
                         end
             | None => None
             end ;;
             items rest
         end) child
  end
with SetOperation_Child_Validate (m : SetOperation_Child) : option ValidationError :=
  match m with
  | mkSetOperation_Child child_type source_position operation_path =>
      match child_type with
      | Some (SetOperation_Child_XThis _) => None
      | Some (SetOperation_Child_ComputedUserset o) =>
          required "ComputedUserset" o ;;
          embedded "ComputedUserset" ComputedUserset_Validate o
      | Some (SetOperation_Child_TupleToUserset o) =>
          required "TupleToUserset" o ;;
          embedded "TupleToUserset" TupleToUserset_Validate o
      | Some (SetOperation_Child_UsersetRewrite o) =>
          required "UsersetRewrite" o ;;
          match o with
          | Some rw => match UsersetRewrite_Validate rw with
                       | Some _ => Some (mkValidationError "UsersetRewrite" Embedded)
                       | None => None
                       end
          | None => None
          end
      | Some (SetOperation_Child_XNil _) => None
      | None => Some (mkValidationError "ChildType" Required)
      end ;;
      embedded "SourcePosition" SourcePosition_Validate source_position
  end.

(** A message is accepted when [Validate] returns nil. *)
Definition accepted (e : option ValidationError) : Prop := e = None.

(** The operands of a rewrite, whatever its operation. *)
Definition operands (m : UsersetRewrite) : list (option SetOperation_Child) :=
  match GetRewriteOperation m with
  | Some (UsersetRewrite_Union (Some op))
  | Some (UsersetRewrite_Intersection (Some op))
  | Some (UsersetRewrite_Exclusion (Some op)) => GetChild op
  | _ => []
  end.

(** An item of [SetOperation.child] that passes the rules: it is present
    and accepted. *)
Definition valid_child (item : option SetOperation_Child) : Prop :=
  exists c, item = Some c /\ SetOperation_Child_Validate c = None.

Definition is_exclusion (m : UsersetRewrite) : bool :=
  match GetRewriteOperation m with
  | Some (UsersetRewrite_Exclusion _) => true
  | _ => false
  end.

(** ** The other messages with validation rules *)

(** The call of [Validate] on every item of a repeated message field that
    has no rule of its own. *)
Fixpoint embedded_each {M : Type} (f : string) (validate : M -> option ValidationError)
    (l : list (option M)) : option ValidationError :=
  match l with
  | [] => None
  | item :: rest => embedded f validate item ;; embedded_each f validate rest
  end.

(** [google.protobuf.Struct] has no [Validate] method; its content is kept
    as the list of its fields, values unparsed. *)
Definition Struct := list (string * string).

Record ContextualizedCaveat := mkContextualizedCaveat {
  caveat_name : string;
  context : option Struct
}.

Definition ContextualizedCaveat_Validate (m : ContextualizedCaveat)
  : option ValidationError :=
  string_rules "CaveatName" 128 caveat_name_pattern (caveat_name m).

Record RelationTuple := mkRelationTuple {
  resource_and_relation : option ObjectAndRelation;
  subject : option ObjectAndRelation;
  caveat : option ContextualizedCaveat
}.

Definition RelationTuple_Validate (m : RelationTuple) : option ValidationError :=
  required "ResourceAndRelation" (resource_and_relation m) ;;
  embedded "ResourceAndRelation" ObjectAndRelation_Validate (resource_and_relation m) ;;
  required "Subject" (subject m) ;;
  embedded "Subject" ObjectAndRelation_Validate (subject m) ;;
  embedded "Caveat" ContextualizedCaveat_Validate (caveat m).

(** [RelationTupleUpdate.Operation] is an open enum; the defined values are
    [UNKNOWN = 0], [CREATE = 1], [TOUCH = 2] and [DELETE = 3]. *)
Definition UNKNOWN : Z := 0.
Definition CREATE : Z := 1.
Definition TOUCH : Z := 2.
Definition DELETE : Z := 3.

Record RelationTupleUpdate := mkRelationTupleUpdate {
  operation : Z;
  tuple : option RelationTuple
}.

Definition RelationTupleUpdate_Validate (m : RelationTupleUpdate)
  : option ValidationError :=
  violation (negb ((operation m =? UNKNOWN) || (operation m =? CREATE)
                   || (operation m =? TOUCH) || (operation m =? DELETE)))
    "Operation" DefinedOnly ;;
  required "Tuple" (tuple m) ;;
  embedded "Tuple" RelationTuple_Validate (tuple m).

(** [AllowedRelation]: the oneof [relation_or_wildcard] has no
    [validate.required] option. *)
Inductive PublicWildcard := mkPublicWildcard.

Record AllowedCaveat := mkAllowedCaveat {
  ac_caveat_name : string
}.

Inductive RelationOrWildcard :=
| AllowedRelation_Relation (relation : string)
| AllowedRelation_PublicWildcard (public_wildcard : option PublicWildcard).

Record AllowedRelation := mkAllowedRelation {
  ar_namespace : string;
  relation_or_wildcard : option RelationOrWildcard;
  ar_source_position : option SourcePosition;
  required_caveat : option AllowedCaveat
}.

Definition AllowedRelation_Validate (m : AllowedRelation) : option ValidationError :=
  string_rules "Namespace" 128 namespace_pattern (ar_namespace m) ;;
  embedded "SourcePosition" SourcePosition_Validate (ar_source_position m) ;;
  match relation_or_wildcard m with
  | Some (AllowedRelation_Relation r) => string_rules "Relation" 64 relation_pattern r
  | Some (AllowedRelation_PublicWildcard _) => None
  | None => None
  end.

Record TypeInformation := mkTypeInformation {
  allowed_direct_relations : list (option AllowedRelation)
}.

Definition TypeInformation_Validate (m : TypeInformation) : option ValidationError :=
  embedded_each "AllowedDirectRelations[idx]" AllowedRelation_Validate
    (allowed_direct_relations m).

Record Relation := mkRelation {
  rel_name : string;
  rel_userset_rewrite : option UsersetRewrite;
  type_information : option TypeInformation;
  rel_metadata : option Metadata;
  rel_source_position : option SourcePosition;
  aliasing_relation : string;
  canonical_cache_key : string
}.

Definition Relation_Validate (m : Relation) : option ValidationError :=
  string_rules "Name" 64 identifier_pattern (rel_name m) ;;
  embedded "UsersetRewrite" UsersetRewrite_Validate (rel_userset_rewrite m) ;;
  embedded "TypeInformation" TypeInformation_Validate (type_information m) ;;
  embedded "Metadata" Metadata_Validate (rel_metadata m) ;;
  embedded "SourcePosition" SourcePosition_Validate (rel_source_position m).

(** [^([a-z][a-z0-9_]{1,62}[a-z0-9]/)?[a-z][a-z0-9_]{1,62}[a-z0-9]$], the
    pattern of [NamespaceDefinition.name]: its prefix may be one character
    longer than that of [namespace_pattern]. *)
Definition namespace_definition_pattern : regexp :=
  Seq (Opt (Seq (Class lower)
              (Seq (Repeat (Class lower_digit_underscore) 1 (Some 62%nat))
                 (Seq (Class lower_digit) (Class [Char "/"])))))
    identifier_pattern.

Record NamespaceDefinition := mkNamespaceDefinition {
  ns_name : string;
  ns_relation : list (option Relation);
  ns_metadata : option Metadata;
  ns_source_position : option SourcePosition
}.

Definition NamespaceDefinition_Validate (m : NamespaceDefinition)
  : option ValidationError :=
  string_rules "Name" 128 namespace_definition_pattern (ns_name m) ;;
  embedded_each "Relation[idx]" Relation_Validate (ns_relation m) ;;
  embedded "Metadata" Metadata_Validate (ns_metadata m) ;;
  embedded "SourcePosition" SourcePosition_Validate (ns_source_position m).

(** The relation names that a rewrite mentions, at any depth: those of its
    computed usersets and of the two sides of its tuple-to-usersets. *)
Fixpoint UsersetRewrite_relations (m : UsersetRewrite) : list string :=
  match m with
  | mkUsersetRewrite rewrite_operation _ =>
      match rewrite_operation with
      | Some (UsersetRewrite_Union (Some op)) => SetOperation_relations op
      | Some (UsersetRewrite_Intersection (Some op)) => SetOperation_relations op
      | Some (UsersetRewrite_Exclusion (Some op)) => SetOperation_relations op
      | _ => []
      end
  end
with SetOperation_relations (m : SetOperation) : list string :=
  match m with
  | mkSetOperation child =>
      (fix items (l : list (option SetOperation_Child)) : list string :=
         match l with
         | [] => []
         | item :: rest =>
             match item with
             | Some c => SetOperation_Child_relations c
             | None => []
             end ++ items rest
         end) child
  end
with SetOperation_Child_relations (m : SetOperation_Child) : list string :=
  match m with
  | mkSetOperation_Child child_type _ _ =>
      match child_type with
      | Some (SetOperation_Child_ComputedUserset (Some cu)) => [cu_relation cu]
      | Some (SetOperation_Child_TupleToUserset (Some ttu)) =>
          match tupleset ttu with Some ts => [ts_relation ts] | None => [] end
          ++ match computed_userset ttu with Some cu => [cu_relation cu] | None => [] end
      | Some (SetOperation_Child_UsersetRewrite (Some rw)) => UsersetRewrite_relations rw
      | _ => []
      end
  end.

(** The [SetOperation] of a rewrite, whichever case of the oneof holds it,
    and the rewrite nested in a child. *)
Definition setOperationOf (rewrite_operation : option RewriteOperation)
  : option SetOperation :=
  match rewrite_operation with
  | Some (UsersetRewrite_Union o) => o
  | Some (UsersetRewrite_Intersection o) => o
  | Some (UsersetRewrite_Exclusion o) => o
  | None => None
  end.

Definition nestedRewrite (child_type : option ChildType) : option UsersetRewrite :=
  match child_type with
  | Some (SetOperation_Child_UsersetRewrite o) => o
  | _ => None
  end.

(** The permission [view = viewer + org->admin] and the namespace
    definition [resource] that holds it, for the examples. *)
Definition exampleViewRewrite : UsersetRewrite :=
  mkUsersetRewrite
    (Some (UsersetRewrite_Union (Some (mkSetOperation
       [Some (mkSetOperation_Child
                (Some (SetOperation_Child_ComputedUserset
                         (Some (mkComputedUserset TUPLE_OBJECT "viewer" None))))
                None [0]);
        Some (mkSetOperation_Child
                (Some (SetOperation_Child_TupleToUserset
                         (Some (mkTupleToUserset (Some (mkTupleset "org"))
                                  (Some (mkComputedUserset TUPLE_USERSET_OBJECT "admin" None))
                                  None))))
                None [1])]))))
    None.

Definition exampleViewRelation : Relation :=
  mkRelation "view" (Some exampleViewRewrite) None None None "" "".

Definition exampleViewerRelation : Relation :=
  mkRelation "viewer" None
    (Some (mkTypeInformation
             [Some (mkAllowedRelation "user"
                      (Some (AllowedRelation_Relation "...")) None None)]))
    None None "" "".

Definition exampleResource : NamespaceDefinition :=
  mkNamespaceDefinition "resource"
    [Some exampleViewerRelation; Some exampleViewRelation] None None.

(** A parameter type that passes the rules: nil, or an accepted type. *)
Definition valid_parameter_type (t : option CaveatTypeReference) : Prop :=
  embedded "ParameterTypes[key]" CaveatTypeReference_Validate t = None.

(** A type reference with at most one child type at every level. *)
Inductive SingleChildTypes : CaveatTypeReference -> Prop :=
| NoChildType (type_name : string) :
    SingleChildTypes (mkCaveatTypeReference type_name [])
| NilChildType (type_name : string) :
    SingleChildTypes (mkCaveatTypeReference type_name [None])
| OneChildType (type_name : string) (child : CaveatTypeReference) :
    SingleChildTypes child ->
    SingleChildTypes (mkCaveatTypeReference type_name [Some child]).

(** An item of [Metadata.metadata_message] that passes the rules: it is
    present and its type URL is one of the two allowed. *)
Definition valid_metadata_message (item : option Any) : Prop :=
  exists a, item = Some a /\ In (type_url a) Metadata_MetadataMessage_InLookup.

End Core.

(* ===================================================================== *)
(** * The optimized-revision cache                                        *)
(* ===================================================================== *)

Module Revisions.

Definition Time := Z.
Definition Duration := Z.
Definition Millisecond : Duration := 1000000.

Definition error := string.

Section Cache.
(** A revision is an opaque token. *)
Variable Revision : Type.

(** Modelled from the spec: what the datastore's optimized-revision
    function returns, [(revision, validity_duration)] or an error. *)
Inductive response :=
| Fresh (revision : Revision) (validity_duration : Duration)
| RefreshError (err : error).

(** Modelled from the spec: what a caller of [OptimizedRevision] receives,
    the revision or the error. *)
Inductive outcome :=
| Returned (revision : Revision)
| Failed (err : error).

(** Modelled from the spec: the refresh in flight, with the time [now] of
    the request that started it and the callers joined on it (the latest
    first). *)
Record Refresh := mkRefresh {
  started : Time;
  waiters : list nat
}.

(** Modelled from the spec: the implementation of the cache
    ([NewCachedOptimizedRevisions], [OptimizedRevision]) is missing; only
    its tests are there. The cache holds the configured
    [max_staleness], the cached value [(revision, valid_until)] once there
    is one, and the single-flight latch. Two more components record what
    the properties observe: the number of calls made to the datastore's
    optimized-revision function, and the outcomes handed to callers (the
    latest first). *)
Record CachedOptimizedRevisions := mkCache {
  max_staleness : Duration;
  cached : option (Revision * Time);
  in_flight : option Refresh;
  refreshes : nat;
  delivered : list (nat * outcome)
}.

(** Modelled from the spec: a new cache has no cached value and no refresh
    in flight. *)
Definition NewCachedOptimizedRevisions (maxStaleness : Duration)
  : CachedOptimizedRevisions :=
  mkCache maxStaleness None None 0 [].

(** Modelled from the spec: step 1 of section 4.3, the cached revision if
    [now < valid_until]. *)
Definition valid_at (now : Time) (c : CachedOptimizedRevisions) : option Revision :=
  match cached c with
  | Some (revision, valid_until) => if now <? valid_until then Some revision else None
  | None => None
  end.

(** Modelled from the spec: the atomic steps of the cache; a caller's
    request arrives at time [now], or the datastore's function returns to
    the refresh in flight. *)
Inductive event :=
| Request (caller : nat) (now : Time)
| Complete (resp : response).

(** Modelled from the spec: steps 1 to 4 of section 4.3.
    - A request at [now < valid_until] returns the cached revision.
    - Otherwise, when no refresh is in flight, the request starts one, which
      calls the datastore's function; when one is in flight, it joins it.
    - When the function returns [(revision, validity_duration)], the cache
      stores [valid_until = now + validity_duration + max_staleness], [now]
      being the time of the request that started the refresh, and every
      joined caller receives the revision.
    - When it returns an error, every joined caller receives that error and
      nothing is cached. *)
Definition step (c : CachedOptimizedRevisions) (e : event) : CachedOptimizedRevisions :=
  match e with
  | Request caller now =>
      match valid_at now c with
      | Some revision =>
          mkCache (max_staleness c) (cached c) (in_flight c) (refreshes c)
            ((caller, Returned revision) :: delivered c)
      | None =>
          match in_flight c with
          | None =>
              mkCache (max_staleness c) (cached c)
                (Some (mkRefresh now [caller])) (S (refreshes c)) (delivered c)
          | Some r =>
              mkCache (max_staleness c) (cached c)
                (Some (mkRefresh (started r) (caller :: waiters r)))
                (refreshes c) (delivered c)
          end
      end
  | Complete resp =>
      match in_flight c with
      | None => c
      | Some r =>
          match resp with
          | Fresh revision validity_duration =>
              mkCache (max_staleness c)
                (Some (revision, started r + validity_duration + max_staleness c))
                None (refreshes c)
                (map (fun w => (w, Returned revision)) (waiters r) ++ delivered c)
          | RefreshError err =>
              mkCache (max_staleness c) (cached c) None (refreshes c)
                (map (fun w => (w, Failed err)) (waiters r) ++ delivered c)
          end
      end
  end.

Definition run (c : CachedOptimizedRevisions) (events : list event)
  : CachedOptimizedRevisions :=
  fold_left step events c.

(** The requests of several callers, in the order of their arrival. *)
Definition arrivals (requests : list (nat * Time)) : list event :=
  map (fun q => Request (fst q) (snd q)) requests.

(** The callers of these requests, the latest first, as the latch holds
    them. *)
Definition callers (requests : list (nat * Time)) : list nat :=
  rev (map fst requests).

(** Modelled from the spec: one call of [OptimizedRevision] with no other
    caller around, at time [now]; the request, then, if it started a
    refresh, the return of the datastore's function, which would answer
    [resp]. *)
Definition OptimizedRevision (resp : response) (now : Time)
    (c : CachedOptimizedRevisions) : CachedOptimizedRevisions :=
  run c [Request 0 now; Complete resp].

(** Several such calls, one after the other. *)
Definition OptimizedRevisions (calls : list (response * Time))
    (c : CachedOptimizedRevisions) : CachedOptimizedRevisions :=
  fold_left (fun c q => OptimizedRevision (fst q) (snd q) c) calls c.

(** The outcome of the latest call. *)
Definition result (c : CachedOptimizedRevisions) : option outcome :=
  match delivered c with
  | (_, o) :: _ => Some o
  | [] => None
  end.

(** The loop of [TestOptimizedRevisionCache]: the mock holds the responses
    it has been told to return, each once; every call is followed by
    [mockTime.Add(5 * time.Millisecond)]. The result is the list of
    outcomes, and the responses left in the mock; [None] when the mock is
    called with no response left. *)
Fixpoint callsEvery5ms (calls : nat) (now : Time) (mock : list response)
    (c : CachedOptimizedRevisions)
  : option (list (option outcome) * list response) :=
  match calls with
  | O => Some ([], mock)
  | S calls' =>
      let requested := step c (Request 0 now) in
      match in_flight requested, mock with
      | None, _ =>
          match callsEvery5ms calls' (now + 5 * Millisecond) mock requested with
          | Some (outs, rest) => Some (result requested :: outs, rest)
          | None => None
          end
      | Some _, resp :: mock' =>
          let completed := step requested (Complete resp) in
          match callsEvery5ms calls' (now + 5 * Millisecond) mock' completed with
          | Some (outs, rest) => Some (result completed :: outs, rest)
          | None => None
          end
      | Some _, [] => None
      end
  end.

End Cache.

Arguments Fresh {Revision}.
Arguments RefreshError {Revision}.
Arguments Returned {Revision}.
Arguments Failed {Revision}.
Arguments mkCache {Revision}.
Arguments max_staleness {Revision}.
Arguments cached {Revision}.
Arguments in_flight {Revision}.
Arguments refreshes {Revision}.
Arguments delivered {Revision}.
Arguments NewCachedOptimizedRevisions {Revision}.
Arguments valid_at {Revision}.
Arguments Request {Revision}.
Arguments Complete {Revision}.
Arguments step {Revision}.
Arguments run {Revision}.
Arguments OptimizedRevision {Revision}.
Arguments OptimizedRevisions {Revision}.
Arguments arrivals {Revision}.
Arguments result {Revision}.
Arguments callsEvery5ms {Revision}.

(** The revisions of the tests. *)
Definition one : Z := 1.
Definition two : Z := 2.
Definition three : Z := 3.

End Revisions.

(* ===================================================================== *)
(** * Reachability entrypoints                                            *)
(* ===================================================================== *)

Module Reachability.

(** ** The messages of core.proto *)

Inductive ReachabilityEntrypointKind :=
| RELATION_ENTRYPOINT
| COMPUTED_USERSET_ENTRYPOINT
| TUPLESET_TO_USERSET_ENTRYPOINT.

Inductive EntrypointResultStatus :=
| REACHABLE_CONDITIONAL_RESULT
| DIRECT_OPERATION_RESULT.

Record RelationReference := mkRelationReference {
  namespace : string;
  relation : string
}.

Record ReachabilityEntrypoint := mkReachabilityEntrypoint {
  kind : ReachabilityEntrypointKind;
  target_relation : RelationReference;
  result_status : EntrypointResultStatus;
  tupleset_relation : string
}.

(** [AllowedRelation]: a subject type with a relation, or its wildcard. *)
Inductive AllowedRelation :=
| allowedRelation (ns rel : string)
| allowedWildcard (ns : string).

(** ** Rewrite trees *)

(** [SetOperationUserset.Operation], without [INVALID]. *)
Inductive Operation := UNION | INTERSECTION | EXCLUSION.

(** Modelled from the spec: the rewrite of a permission as section 3 gives
    it, an operation with an ordered list of children, a child being
    [_this], a computed userset, a tuple-to-userset, a nested rewrite or
    [_nil]. *)
Inductive Child :=
| _this
| computed_userset (rel : string)
| tuple_to_userset (tupleset rel : string)
| userset_rewrite (op : Operation) (children : list Child)
| _nil.

Record UsersetRewrite := mkUsersetRewrite {
  operation : Operation;
  child : list Child
}.

(** The rewrite as the node at the root of its tree. *)
Definition root (rw : UsersetRewrite) : Child :=
  userset_rewrite (operation rw) (child rw).

(** Modelled from the spec: the key under which an entrypoint is recorded,
    the subject type (for wildcards) or the subject type and relation. *)
Inductive SubjectKey :=
| BySubjectType (ns : string)
| BySubjectRelation (ref : RelationReference).

(** Modelled from the spec: an entrypoint of the graph, with its key and
    with the position, in the rewrite tree, of the child it was recorded
    for: the indices of the children on the way down from the root (the
    [operation_path]). *)
Record Recorded := mkRecorded {
  key : SubjectKey;
  position : list nat;
  entrypoint : ReachabilityEntrypoint
}.

Section Graph.
(** The namespace that defines the relation, the relation, and the allowed
    direct subject types of the relations of that namespace. *)
Variable ns : string.
Variable target : string.
Variable AllowedDirect : string -> list AllowedRelation.

(** Modelled from the spec: the status of what lies under an operation
    whose own status is given. *)
Definition under (op : Operation) (status : EntrypointResultStatus)
  : EntrypointResultStatus :=
  match op with
  | UNION => status
  | INTERSECTION | EXCLUSION => REACHABLE_CONDITIONAL_RESULT
  end.

(** Modelled from the spec: the entrypoints of the relationships stored on
    the relation itself, one for each allowed subject type. *)
Definition relationEntrypoints (status : EntrypointResultStatus) (pos : list nat)
  : list Recorded :=
  map (fun a =>
         mkRecorded
           match a with
           | allowedRelation ns' rel' => BySubjectRelation (mkRelationReference ns' rel')
           | allowedWildcard ns' => BySubjectType ns'
           end
           pos
           (mkReachabilityEntrypoint RELATION_ENTRYPOINT
              (mkRelationReference ns target) status ""))
      (AllowedDirect target).

(** Modelled from the spec: the subject types that a tupleset relation
    leads to. *)
Definition tuplesetNamespaces (tupleset : string) : list string :=
  map (fun a => match a with allowedRelation ns' _ | allowedWildcard ns' => ns' end)
      (AllowedDirect tupleset).

(** Modelled from the spec: the construction of the reachability graph is
    missing. It walks the rewrite tree once, from
    the root down, and records the entrypoints of each child; the status it
    records is the one it carries down: what lies under an intersection or
    an exclusion is conditional, what lies under a union has the status of
    the union. [_nil] contributes no entrypoints. *)
Fixpoint childEntrypoints (status : EntrypointResultStatus) (pos : list nat)
    (c : Child) : list Recorded :=
  match c with
  | _this => relationEntrypoints status pos
  | computed_userset rel =>
      [mkRecorded (BySubjectRelation (mkRelationReference ns rel)) pos
         (mkReachabilityEntrypoint COMPUTED_USERSET_ENTRYPOINT
            (mkRelationReference ns target) status "")]
  | tuple_to_userset tupleset rel =>
      map (fun ns' =>
             mkRecorded (BySubjectRelation (mkRelationReference ns' rel)) pos
               (mkReachabilityEntrypoint TUPLESET_TO_USERSET_ENTRYPOINT
                  (mkRelationReference ns target) status tupleset))
          (tuplesetNamespaces tupleset)
  | userset_rewrite op children =>
      (fix each (i : nat) (cs : list Child) : list Recorded :=
         match cs with
         | [] => []
         | c' :: cs' =>
             childEntrypoints (under op status) (pos ++ [i]) c' ++ each (S i) cs'
         end) 0%nat children
  | _nil => []
  end.

(** Modelled from the spec: the graph of a relation; a data relation (no
    rewrite) has the entrypoints of its stored relationships, a permission
    those of its rewrite tree. At the root nothing is conditional yet. *)
Definition ReachabilityGraph (rewrite : option UsersetRewrite) : list Recorded :=
  match rewrite with
  | None => relationEntrypoints DIRECT_OPERATION_RESULT []
  | Some rw => childEntrypoints DIRECT_OPERATION_RESULT [] (root rw)
  end.

(** The two maps of the [ReachabilityGraph] message. *)
Definition entrypoints_by_subject_type (g : list Recorded) (subject_type : string)
  : list ReachabilityEntrypoint :=
  flat_map (fun r => match key r with
                     | BySubjectType ns' =>
                         if String.eqb ns' subject_type then [entrypoint r] else []
                     | BySubjectRelation _ => []
                     end) g.

Definition entrypoints_by_subject_relation (g : list Recorded) (subject_ns subject_rel : string)
  : list ReachabilityEntrypoint :=
  flat_map (fun r => match key r with
                     | BySubjectRelation ref =>
                         if String.eqb (namespace ref) subject_ns
                            && String.eqb (relation ref) subject_rel
                         then [entrypoint r] else []
                     | BySubjectType _ => []
                     end) g.

End Graph.

(** ** Walking upward

    The operations above a position of the tree: those of the rewrites that
    contain it, the root first. *)
Fixpoint ancestors (c : Child) (pos : list nat) : list Operation :=
  match pos with
  | [] => []
  | i :: rest =>
      match c with
      | userset_rewrite op children =>
          op :: match nth_error children i with
                | Some c' => ancestors c' rest
                | None => []
                end
      | _ => []
      end
  end.

Definition is_union (op : Operation) : bool :=
  match op with
  | UNION => true
  | _ => false
  end.

(** The schema of the comment of [ReachabilityGraph] in core.proto. *)
Definition resourceAllowedDirect (rel : string) : list AllowedRelation :=
  if String.eqb rel "org" then [allowedRelation "organization" "..."]
  else if String.eqb rel "viewer" then [allowedRelation "user" "..."]
  else if String.eqb rel "owner" then [allowedRelation "user" "..."]
  else [].

Definition viewRewrite : UsersetRewrite :=
  mkUsersetRewrite UNION
    [computed_userset "viewer"; computed_userset "owner";
     tuple_to_userset "org" "admin"].

End Reachability.

(* ===================================================================== *)
(** * Properties of the CockroachDB datastore options                     *)
(* ===================================================================== *)

Section CrdbProperties.
Import Crdb.

Lemma get_call_target (option : Option) (po : crdbOptions) :
  get (target option) (call option po) = assigned option.
Proof. destruct option; reflexivity. Qed.

Lemma get_call_other (option : Option) (f : field) (po : crdbOptions) :
  target option <> f -> get f (call option po) = get f po.
Proof.
  intros Hne.
  destruct option; destruct f as [p|p| | | | | | | | | | | ];
    try destruct p; simpl in *; try reflexivity; congruence.
Qed.

Lemma applyOptions_app (pre post : list Option) (po : crdbOptions) :
  applyOptions (pre ++ post) po = applyOptions post (applyOptions pre po).
Proof. unfold applyOptions. apply fold_left_app. Qed.

Lemma applyOptions_untouched (f : field) (options : list Option) :
  untouched f options ->
  forall po, get f (applyOptions options po) = get f po.
Proof.
  induction 1 as [|option rest Hne _ IH]; intros po; simpl.
  - reflexivity.
  - change (get f (applyOptions rest (call option po)) = get f po).
    rewrite IH. now apply get_call_other.
Qed.

Lemma applyOptions_last_wins (pre post : list Option) (option : Option) (po : crdbOptions) :
  untouched (target option) post ->
  get (target option) (applyOptions (pre ++ option :: post) po) = assigned option.
Proof.
  intros Hpost. rewrite applyOptions_app.
  change (applyOptions (option :: post) ?c) with (applyOptions post (call option c)).
  rewrite applyOptions_untouched by assumption.
  apply get_call_target.
Qed.

Lemma generateConfig_computed (options : list Option) :
  fst (generateConfig options) = applyOptions options initialConfig.
Proof. unfold generateConfig. now destruct (_ >=? _). Qed.

(** C9. [generateConfig] returns an error exactly when the computed
    [revisionQuantization] is greater than or equal to the computed
    [gcWindow]; a field that no option of the list assigns keeps its default
    ([gcWindow] 24h, [revisionQuantization] 5s, [watchBufferLength] 128,
    [maxRevisionStalenessPercent] 0.1, [splitAtUsersetCount] 1024,
    [maxRetries] 5, [overlapStrategy] "static"); and the options run in list
    order, so that the last option assigning a field decides its content. *)
Theorem generateConfig_error_defaults_order (options : list Option) :
  let computed := fst (generateConfig options) in
  let err := snd (generateConfig options) in
  (err <> None <-> revisionQuantization computed >= gcWindow computed)
  /\ (untouched fGcWindow options -> gcWindow computed = 24 * Hour)
  /\ (untouched fRevisionQuantization options ->
      revisionQuantization computed = 5 * Second)
  /\ (untouched fWatchBufferLength options -> watchBufferLength computed = 128)
  /\ (untouched fMaxRevisionStalenessPercent options ->
      maxRevisionStalenessPercent computed = 0x1.999999999999ap-4%float)
  /\ (untouched fSplitAtUsersetCount options -> splitAtUsersetCount computed = 1024)
  /\ (untouched fMaxRetries options -> maxRetries computed = 5)
  /\ (untouched fOverlapStrategy options -> overlapStrategy computed = "static")
  /\ (forall f, untouched f options -> get f computed = get f initialConfig)
  /\ (forall pre option post,
        options = pre ++ option :: post ->
        untouched (target option) post ->
        get (target option) computed = assigned option).
Proof.
  cbv zeta. rewrite generateConfig_computed.
  assert (Hdef : forall f, untouched f options ->
            get f (applyOptions options initialConfig) = get f initialConfig)
    by (intros f Hf; now apply applyOptions_untouched).
  split.
  { unfold generateConfig. destruct (Z.geb_spec
      (revisionQuantization (applyOptions options initialConfig))
      (gcWindow (applyOptions options initialConfig))) as [Hge|Hlt]; simpl.
    - split; [intros _; lia | intros _; discriminate].
    - split; [intros H; now elim H | intros H; lia]. }
  repeat split.
  - intros H. specialize (Hdef _ H). simpl in Hdef. now inversion Hdef.
  - intros H. specialize (Hdef _ H). simpl in Hdef. now inversion Hdef.
  - intros H. specialize (Hdef _ H). simpl in Hdef. now inversion Hdef.
  - intros H. specialize (Hdef _ H). simpl in Hdef. now inversion Hdef.
  - intros H. specialize (Hdef _ H). simpl in Hdef. now inversion Hdef.
  - intros H. specialize (Hdef _ H). simpl in Hdef. now inversion Hdef.
  - intros H. specialize (Hdef _ H). simpl in Hdef. now inversion Hdef.
  - exact Hdef.
  - intros pre option post -> Hpost. now apply applyOptions_last_wins.
Qed.

(** The theorem at the list [GCWindow 1h; MaxRetries 3; GCWindow 2s]: the
    second [GCWindow] wins, 5s >= 2s is an error, and the untouched
    [watchBufferLength] is 128. *)
Lemma generateConfig_error_defaults_order_witness :
  snd (generateConfig [GCWindow Hour; MaxRetries 3; GCWindow (2 * Second)]) <> None
  /\ watchBufferLength
       (fst (generateConfig [GCWindow Hour; MaxRetries 3; GCWindow (2 * Second)])) = 128
  /\ get fGcWindow
       (fst (generateConfig [GCWindow Hour; MaxRetries 3; GCWindow (2 * Second)]))
     = VDuration (2 * Second).
Proof.
  pose proof (generateConfig_error_defaults_order
                [GCWindow Hour; MaxRetries 3; GCWindow (2 * Second)]) as H.
  cbv zeta in H.
  destruct H as (Herr & _ & _ & Hwatch & _ & _ & _ & _ & _ & Hlast).
  split; [| split].
  - apply Herr. vm_compute. discriminate.
  - apply Hwatch. repeat constructor; discriminate.
  - apply (Hlast [GCWindow Hour; MaxRetries 3] (GCWindow (2 * Second)) []).
    + reflexivity.
    + constructor.
Defined.

End CrdbProperties.

(* ===================================================================== *)
(** * Properties of the separating-context datastore proxy                *)
(* ===================================================================== *)

Section ProxyProperties.
Import Proxy.

Lemma Err_no_cancelers_no_deadline (w : World) (ctx : Context) :
  cancelers ctx = [] -> deadline ctx = None -> Err w ctx = None.
Proof. intros Hc Hd. unfold Err. now rewrite Hc, Hd. Qed.

(** The context built by [SeparateContextWithTracing] carries the span and
    the logger of its argument and nothing else. *)
Lemma SeparateContextWithTracing_severed (ctx : Context) :
  severed ctx (SeparateContextWithTracing ctx).
Proof.
  unfold severed, SeparateContextWithTracing, log_Ctx.
  destruct ctx as [d cs sp [l|] vs]; simpl;
    repeat split; try reflexivity;
    intros w; now apply Err_no_cancelers_no_deadline.
Qed.

(** The no-op span of a context without span stays the no-op span. *)
Lemma SeparateContextWithTracing_Background :
  SpanFromContext (SeparateContextWithTracing Background) = noopSpan
  /\ log_Ctx (SeparateContextWithTracing Background) = None.
Proof. now split. Qed.

(** The claim fails for [ReadWriteTx] and [Watch]: the delegate receives the
    caller's context itself. With a context that has a deadline at 100 and
    cancel function 1, the context that reaches the delegate still has the
    deadline, is done once the cancel function has been called, and is done
    once the deadline has passed. *)
Lemma ctxProxy_ReadWriteTx_Watch_not_severed :
  let ctx := WithDeadline 100 1%nat (ContextWithSpan Background (recordingSpan 7)) in
  let received := fst (ReadWriteTx (ctxProxy observer) ctx tt) in
  let watched := Watch (ctxProxy observer) ctx Background in
  received = ctx
  /\ watched = ctx
  /\ deadline received = Some 100
  /\ Err (mkWorld 0 [1%nat]) received = Some Canceled
  /\ Err (mkWorld 100 []) received = Some DeadlineExceeded
  /\ ~ severed ctx received
  /\ ~ severed ctx watched.
Proof.
  cbv zeta. repeat split; try reflexivity.
  - intros (_ & _ & _ & Hd & _). discriminate Hd.
  - intros (_ & _ & _ & Hd & _). discriminate Hd.
Qed.

(** C4 (amended). Every method of the proxy and of its readers that takes a
    context, other than [ReadWriteTx] and [Watch], calls the delegate with
    [SeparateContextWithTracing ctx], which carries the span and the logger
    of [ctx], no other value, no deadline and no cancellation: nothing that
    happens to [ctx] makes it done. [ReadWriteTx] and [Watch] call the
    delegate with [ctx] itself; the methods without context are passed
    along. *)
Theorem ctxProxy_severs_context (T : Types) (d : Datastore T) (ctx : Context) :
  severed ctx (SeparateContextWithTracing ctx)
  /\ OptimizedRevision (ctxProxy d) ctx
     = OptimizedRevision d (SeparateContextWithTracing ctx)
  /\ (forall revision, CheckRevision (ctxProxy d) ctx revision
     = CheckRevision d (SeparateContextWithTracing ctx) revision)
  /\ HeadRevision (ctxProxy d) ctx = HeadRevision d (SeparateContextWithTracing ctx)
  /\ Features (ctxProxy d) ctx = Features d (SeparateContextWithTracing ctx)
  /\ Statistics (ctxProxy d) ctx = Statistics d (SeparateContextWithTracing ctx)
  /\ ReadyState (ctxProxy d) ctx = ReadyState d (SeparateContextWithTracing ctx)
  /\ (forall rev name, ReadCaveatByName (SnapshotReader (ctxProxy d) rev) ctx name
     = ReadCaveatByName (SnapshotReader d rev) (SeparateContextWithTracing ctx) name)
  /\ (forall rev, ListAllCaveats (SnapshotReader (ctxProxy d) rev) ctx
     = ListAllCaveats (SnapshotReader d rev) (SeparateContextWithTracing ctx))
  /\ (forall rev names, LookupCaveatsWithNames (SnapshotReader (ctxProxy d) rev) ctx names
     = LookupCaveatsWithNames (SnapshotReader d rev) (SeparateContextWithTracing ctx) names)
  /\ (forall rev, ListAllNamespaces (SnapshotReader (ctxProxy d) rev) ctx
     = ListAllNamespaces (SnapshotReader d rev) (SeparateContextWithTracing ctx))
  /\ (forall rev names, LookupNamespacesWithNames (SnapshotReader (ctxProxy d) rev) ctx names
     = LookupNamespacesWithNames (SnapshotReader d rev) (SeparateContextWithTracing ctx) names)
  /\ (forall rev name, ReadNamespaceByName (SnapshotReader (ctxProxy d) rev) ctx name
     = ReadNamespaceByName (SnapshotReader d rev) (SeparateContextWithTracing ctx) name)
  /\ (forall rev filter options,
       QueryRelationships (SnapshotReader (ctxProxy d) rev) ctx filter options
     = QueryRelationships (SnapshotReader d rev) (SeparateContextWithTracing ctx)
         filter options)
  /\ (forall rev filter options,
       ReverseQueryRelationships (SnapshotReader (ctxProxy d) rev) ctx filter options
     = ReverseQueryRelationships (SnapshotReader d rev) (SeparateContextWithTracing ctx)
         filter options)
  /\ (forall f, ReadWriteTx (ctxProxy d) ctx f = ReadWriteTx d ctx f)
  /\ (forall afterRevision, Watch (ctxProxy d) ctx afterRevision
     = Watch d ctx afterRevision)
  /\ (forall serialized, RevisionFromString (ctxProxy d) serialized
     = RevisionFromString d serialized)
  /\ Close (ctxProxy d) = Close d.
Proof.
  split; [apply SeparateContextWithTracing_severed |].
  repeat split.
Qed.

(** Through the observing delegate: the context that a read method of the
    proxy hands over is never done, whatever has been cancelled and however
    late it is. *)
Lemma ctxProxy_reads_never_done (ctx : Context) (w : World) :
  Err w (fst (OptimizedRevision (ctxProxy observer) ctx)) = None
  /\ Err w (fst (HeadRevision (ctxProxy observer) ctx)) = None
  /\ (forall rev filter options,
       Err w (fst (QueryRelationships (SnapshotReader (ctxProxy observer) rev)
                     ctx filter options)) = None).
Proof.
  destruct (SeparateContextWithTracing_severed ctx) as (_ & _ & _ & _ & _ & H).
  repeat split; intros; apply H.
Qed.

End ProxyProperties.

(* ===================================================================== *)
(** * Properties of the regular expression matcher                        *)
(* ===================================================================== *)

Section RegexpProperties.
Import Regexp.

Lemma matches_Fail (s : list ascii) : matches Fail s = false.
Proof. induction s; simpl; auto. Qed.

Lemma matches_Eps (s : list ascii) : matches Eps s = true <-> s = [].
Proof.
  destruct s as [|c s]; simpl.
  - split; auto.
  - rewrite matches_Fail. split; discriminate.
Qed.

Lemma matches_Alt (a b : regexp) (s : list ascii) :
  matches (Alt a b) s = matches a s || matches b s.
Proof. revert a b. induction s as [|c s IH]; intros a b; simpl; auto. Qed.

Lemma matches_Seq_Fail (r : regexp) (s : list ascii) :
  matches (Seq Fail r) s = false.
Proof. induction s; simpl; auto. Qed.

Lemma matches_Seq_Eps (r : regexp) (s : list ascii) :
  matches (Seq Eps r) s = matches r s.
Proof.
  destruct s as [|c s]; simpl; auto.
  now rewrite matches_Alt, matches_Seq_Fail.
Qed.

Lemma matches_Class (cl : list item) (s : list ascii) :
  matches (Class cl) s = true <-> exists c, s = [c] /\ in_class cl c = true.
Proof.
  destruct s as [|c s]; simpl.
  - split; [discriminate | intros (c & H & _); discriminate].
  - destruct (in_class cl c) eqn:Hc.
    + rewrite matches_Eps. split.
      * intros ->. eauto.
      * intros (c' & H & _). now inversion H.
    + rewrite matches_Fail. split; [discriminate |].
      intros (c' & H & Hc'). inversion H; subst. congruence.
Qed.

Lemma matches_Seq_Class (cl : list item) (r : regexp) (s : list ascii) :
  matches (Seq (Class cl) r) s
  = match s with
    | [] => false
    | c :: s' => in_class cl c && matches r s'
    end.
Proof.
  destruct s as [|c s]; simpl; auto.
  destruct (in_class cl c); simpl.
  - apply matches_Seq_Eps.
  - apply matches_Seq_Fail.
Qed.

(** Concatenation splits the string. *)
Lemma matches_Seq (a b : regexp) (s : list ascii) :
  matches (Seq a b) s = true <->
  exists s1 s2, s = s1 ++ s2 /\ matches a s1 = true /\ matches b s2 = true.
Proof.
  revert a b. induction s as [|c s IH]; intros a b; simpl.
  - rewrite andb_true_iff. split.
    + intros [Ha Hb]. exists [], []. auto.
    + intros (s1 & s2 & Hs & Ha & Hb).
      symmetry in Hs. apply app_eq_nil in Hs as [-> ->]. auto.
  - destruct (nullable a) eqn:Hn.
    + rewrite matches_Alt, orb_true_iff, IH. split.
      * intros [(s1 & s2 & -> & Ha & Hb) | Hb].
        -- exists (c :: s1), s2. auto.
        -- exists [], (c :: s). auto.
      * intros (s1 & s2 & Hs & Ha & Hb). destruct s1 as [|c' s1]; simpl in *.
        -- subst s2. now right.
        -- inversion Hs; subst. left. eauto.
    + rewrite IH. split.
      * intros (s1 & s2 & -> & Ha & Hb). exists (c :: s1), s2. auto.
      * intros (s1 & s2 & Hs & Ha & Hb). destruct s1 as [|c' s1]; simpl in *.
        -- congruence.
        -- inversion Hs; subst. eauto.
Qed.

(** Counted repetition of a character class. *)
Lemma matches_Repeat_Class (cl : list item) (min : nat) (max : option nat)
    (s : list ascii) :
  matches (Repeat (Class cl) min max) s
  = forallb (in_class cl) s
    && (min <=? length s)%nat
    && match max with Some m => (length s <=? m)%nat | None => true end.
Proof.
  revert min max. induction s as [|c s IH]; intros min max.
  - apply eq_true_iff_eq. cbn [matches nullable forallb length].
    destruct max as [m|]; bool_props; intuition (try discriminate; try lia).
  - cbn [matches deriv forallb length].
    destruct max as [[|m]|].
    + rewrite matches_Fail. symmetry. apply andb_false_iff. right.
      apply Nat.leb_gt. lia.
    + destruct (in_class cl c) eqn:Hc.
      * rewrite matches_Seq_Eps, IH. apply eq_true_iff_eq.
        bool_props. intuition lia.
      * rewrite matches_Seq_Fail. reflexivity.
    + destruct (in_class cl c) eqn:Hc.
      * rewrite matches_Seq_Eps, IH. apply eq_true_iff_eq.
        bool_props. intuition lia.
      * rewrite matches_Seq_Fail. reflexivity.
Qed.

(** A literal matches only itself. *)
Lemma matches_Lit (l s : list ascii) : matches (Lit l) s = true <-> s = l.
Proof.
  revert s. induction l as [|c l IH]; intros s; simpl Lit.
  - apply matches_Eps.
  - rewrite matches_Seq_Class. destruct s as [|c' s].
    + split; discriminate.
    + unfold in_class. simpl. rewrite orb_false_r, andb_true_iff, IH.
      rewrite Ascii.eqb_eq. split.
      * intros [-> ->]. reflexivity.
      * intros H. inversion H. auto.
Qed.

Lemma length_list_ascii_of_string (s : string) :
  length (list_ascii_of_string s) = String.length s.
Proof. induction s; simpl; auto. Qed.

Lemma list_ascii_of_string_inj (s t : string) :
  list_ascii_of_string s = list_ascii_of_string t -> s = t.
Proof.
  intros H. rewrite <- (string_of_list_ascii_of_string s),
              <- (string_of_list_ascii_of_string t). now rewrite H.
Qed.

End RegexpProperties.

(* ===================================================================== *)
(** * Properties of the validation rules of core.proto                    *)
(* ===================================================================== *)

Section CoreProperties.
Import Regexp Core.
Local Open Scope validate_scope.

(** ** The shape of the strings that the patterns match *)

(** An identifier: a lowercase letter, then 1 to 62 lowercase letters,
    digits or underscores, then a lowercase letter or a digit. *)
Lemma identifier_pattern_shape (s : list ascii) :
  matches identifier_pattern s = true <->
  exists c mid l,
    s = c :: mid ++ [l]
    /\ in_class lower c = true
    /\ forallb (in_class lower_digit_underscore) mid = true
    /\ (1 <= length mid <= 62)%nat
    /\ in_class lower_digit l = true.
Proof.
  unfold identifier_pattern. rewrite matches_Seq_Class.
  destruct s as [|c s].
  - split; [discriminate | intros (c & mid & l & H & _); discriminate].
  - rewrite andb_true_iff, matches_Seq. split.
    + intros [Hc (s1 & s2 & -> & H1 & H2)].
      rewrite matches_Repeat_Class in H1. bool_props_in H1.
      apply matches_Class in H2 as (l & -> & Hl).
      exists c, s1, l. intuition.
    + intros (c' & mid & l & H & Hc & Hmid & Hlen & Hl).
      inversion H; subst. split; [assumption |].
      exists mid, [l]. split; [reflexivity |]. split.
      * rewrite matches_Repeat_Class. bool_props. intuition.
      * apply matches_Class. eauto.
Qed.

Lemma identifier_pattern_length (s : list ascii) :
  matches identifier_pattern s = true -> (3 <= length s <= 64)%nat.
Proof.
  intros H. apply identifier_pattern_shape in H as (c & mid & l & -> & _ & _ & Hlen & _).
  simpl. rewrite length_app. simpl. lia.
Qed.

Lemma namespace_pattern_length (s : list ascii) :
  matches namespace_pattern s = true -> (3 <= length s <= 128)%nat.
Proof.
  unfold namespace_pattern, Opt. rewrite matches_Seq.
  intros (s1 & s2 & -> & H1 & H2).
  apply identifier_pattern_length in H2. rewrite length_app.
  rewrite matches_Alt, orb_true_iff, matches_Eps in H1.
  destruct H1 as [H1 | ->]; [| simpl; lia].
  rewrite matches_Seq_Class in H1. destruct s1 as [|c s1]; [discriminate |].
  apply andb_true_iff in H1 as [_ H1].
  apply matches_Seq in H1 as (r1 & r2 & -> & Hr1 & Hr2).
  rewrite matches_Repeat_Class in Hr1. bool_props_in Hr1.
  rewrite matches_Seq_Class in Hr2. destruct r2 as [|l r2]; [discriminate |].
  apply andb_true_iff in Hr2 as [_ Hr2].
  apply matches_Class in Hr2 as (x & -> & _).
  simpl. rewrite length_app. simpl. lia.
Qed.

(** The relation pattern: the three dots, or an identifier. *)
Lemma relation_pattern_cases (s : string) :
  MatchString relation_pattern s = true <->
  s = "..." \/ MatchString identifier_pattern s = true.
Proof.
  unfold MatchString, relation_pattern.
  rewrite matches_Alt, orb_true_iff, matches_Lit. split.
  - intros [H | H]; [left | now right].
    now apply list_ascii_of_string_inj.
  - intros [-> | H]; [now left | now right].
Qed.

(** The object id pattern: the star, or one or more allowed characters. *)
Lemma object_id_pattern_cases (s : string) :
  MatchString object_id_pattern s = true <->
  s = "*"
  \/ (s <> "" /\ forallb (in_class object_id_chars) (list_ascii_of_string s) = true).
Proof.
  unfold MatchString, object_id_pattern.
  rewrite matches_Alt, orb_true_iff, matches_Lit, matches_Repeat_Class.
  rewrite andb_true_r, andb_true_iff, Nat.leb_le, length_list_ascii_of_string.
  split.
  - intros [[Hall Hlen] | H].
    + right. split; [| assumption]. intros ->. simpl in Hlen. lia.
    + left. now apply list_ascii_of_string_inj.
  - intros [-> | [Hne Hall]].
    + now right.
    + left. split; [assumption |]. destruct s; [congruence | simpl; lia].
Qed.

(** ** Sequencing of the checks *)

Lemma andThen_None (a b : option ValidationError) :
  (a ;; b) = None <-> a = None /\ b = None.
Proof.
  unfold andThen. destruct a as [e|]; split.
  - discriminate.
  - intros [H _]. discriminate.
  - auto.
  - intros [_ H]. exact H.
Qed.

Lemma violation_None (violated : bool) (f : string) (r : Rule) :
  violation violated f r = None <-> violated = false.
Proof. destruct violated; simpl; split; congruence. Qed.

Lemma string_rules_None (f : string) (max_bytes : nat) (pattern : regexp) (v : string) :
  string_rules f max_bytes pattern v = None <->
  (String.length v <= max_bytes)%nat /\ MatchString pattern v = true.
Proof.
  unfold string_rules.
  rewrite andThen_None, !violation_None, Nat.ltb_ge, negb_false_iff. tauto.
Qed.

Lemma required_None {M : Type} (f : string) (m : option M) :
  required f m = None <-> exists m', m = Some m'.
Proof.
  destruct m; simpl; split; try congruence; eauto.
  intros [m' H]. discriminate.
Qed.

(** ** [ObjectAndRelation] *)

(** The claim as stated fails for the relation: the object and relation
    [user:alice#...] is accepted, and its relation, the three dots, matches
    neither the identifier pattern nor the namespace pattern and has no
    lowercase letter at all. *)
Lemma ObjectAndRelation_ellipsis_accepted :
  let m := mkObjectAndRelation "user" "alice" "..." in
  ObjectAndRelation_Validate m = None
  /\ MatchString identifier_pattern (relation m) = false
  /\ MatchString namespace_pattern (relation m) = false
  /\ existsb (in_class lower) (list_ascii_of_string (relation m)) = false.
Proof. cbv zeta. repeat split; vm_compute; reflexivity. Qed.

(** C7 (amended). An [ObjectAndRelation] is accepted by validation exactly
    when its namespace matches the namespace pattern (a lowercase
    identifier, optionally after a lowercase prefix and a slash), its
    relation is the three dots [...] or matches the lowercase identifier
    pattern, and its object id is the star or a non-empty string of the
    allowed characters, of at most 1024 bytes. Any value outside these
    patterns is rejected. *)
Theorem ObjectAndRelation_Validate_accepts (m : ObjectAndRelation) :
  ObjectAndRelation_Validate m = None <->
  MatchString namespace_pattern (namespace m) = true
  /\ (relation m = "..." \/ MatchString identifier_pattern (relation m) = true)
  /\ (object_id m = "*"
      \/ (object_id m <> ""
          /\ forallb (in_class object_id_chars)
               (list_ascii_of_string (object_id m)) = true))
  /\ (String.length (object_id m) <= 1024)%nat.
Proof.
  unfold ObjectAndRelation_Validate.
  rewrite !andThen_None, !string_rules_None.
  rewrite relation_pattern_cases, object_id_pattern_cases.
  split.
  - tauto.
  - intros (Hns & Hrel & Hid & Hlen). repeat split; try assumption.
    + apply namespace_pattern_length in Hns.
      rewrite length_list_ascii_of_string in Hns. lia.
    + destruct Hrel as [-> | Hrel]; [simpl; lia |].
      apply identifier_pattern_length in Hrel.
      rewrite length_list_ascii_of_string in Hrel. lia.
Qed.

(** The theorem at [resource:r1#viewer], at the wildcard [user:*#...], and
    at an object with an empty id. *)
Lemma ObjectAndRelation_Validate_accepts_witness :
  ObjectAndRelation_Validate (mkObjectAndRelation "resource" "r1" "viewer") = None
  /\ ObjectAndRelation_Validate (mkObjectAndRelation "user" "*" "...") = None
  /\ ObjectAndRelation_Validate (mkObjectAndRelation "user" "" "...") <> None.
Proof.
  split; [| split].
  - apply (proj2 (ObjectAndRelation_Validate_accepts
                    (mkObjectAndRelation "resource" "r1" "viewer"))).
    refine (conj _ (conj _ (conj _ _))).
    + vm_compute. reflexivity.
    + right. vm_compute. reflexivity.
    + right. split; [discriminate | vm_compute; reflexivity].
    + simpl. lia.
  - apply (proj2 (ObjectAndRelation_Validate_accepts
                    (mkObjectAndRelation "user" "*" "..."))).
    refine (conj _ (conj _ (conj _ _))).
    + vm_compute. reflexivity.
    + left. reflexivity.
    + left. reflexivity.
    + simpl. lia.
  - intros H.
    apply (proj1 (ObjectAndRelation_Validate_accepts
                    (mkObjectAndRelation "user" "" "..."))) in H.
    destruct H as (_ & _ & [H | [H _]] & _); [discriminate H | now apply H].
Defined.

(** ** [CaveatDefinition] *)

(** C10. A [CaveatDefinition] accepted by validation has between 1 and 20
    entries in [parameter_types], a [serialized_expression] of at most 4096
    bytes and a name of at most 128 bytes that matches the caveat name
    pattern; a definition that violates one of these bounds is rejected. *)
Theorem CaveatDefinition_Validate_bounds (m : CaveatDefinition) :
  let within :=
    (1 <= size (parameter_types m) <= 20)%nat
    /\ (length (serialized_expression m) <= 4096)%nat
    /\ (String.length (name m) <= 128)%nat
    /\ MatchString caveat_name_pattern (name m) = true in
  (CaveatDefinition_Validate m = None -> within)
  /\ (~ within -> CaveatDefinition_Validate m <> None).
Proof.
  cbv zeta.
  assert (Hvalid : CaveatDefinition_Validate m = None ->
    (1 <= size (parameter_types m) <= 20)%nat
    /\ (length (serialized_expression m) <= 4096)%nat
    /\ (String.length (name m) <= 128)%nat
    /\ MatchString caveat_name_pattern (name m) = true).
  { unfold CaveatDefinition_Validate.
    rewrite !andThen_None, string_rules_None, !violation_None.
    intros ([Hlen Hpat] & Hexpr & Hpairs & _).
    apply orb_false_iff in Hpairs as [Hlo Hhi].
    apply Nat.ltb_ge in Hexpr, Hlo, Hhi. repeat split; assumption. }
  split; [exact Hvalid |].
  intros Hout Hv. apply Hout, Hvalid, Hv.
Qed.

(** The theorem at the caveat [ip_in_range] with one parameter, and at the
    same caveat without parameters. *)
Lemma CaveatDefinition_Validate_bounds_witness :
  let int := mkCaveatTypeReference "int" [] in
  let ok := mkCaveatDefinition "ip_in_range" [] {[ "a" := Some int ]} None None in
  let bad := mkCaveatDefinition "ip_in_range" [] ∅ None None in
  ((1 <= size (parameter_types ok) <= 20)%nat
   /\ (length (serialized_expression ok) <= 4096)%nat
   /\ (String.length (name ok) <= 128)%nat
   /\ MatchString caveat_name_pattern (name ok) = true)
  /\ CaveatDefinition_Validate bad <> None.
Proof.
  cbv zeta. split.
  - apply (proj1 (CaveatDefinition_Validate_bounds
      (mkCaveatDefinition "ip_in_range" []
         {[ "a" := Some (mkCaveatTypeReference "int" []) ]} None None))).
    vm_compute. reflexivity.
  - apply (proj2 (CaveatDefinition_Validate_bounds
      (mkCaveatDefinition "ip_in_range" [] ∅ None None))).
    intros [[H _] _]. vm_compute in H. lia.
Defined.

(** ** [UsersetRewrite] and [SetOperation] *)

Lemma SetOperation_Validate_None (child : list (option SetOperation_Child)) :
  SetOperation_Validate (mkSetOperation child) = None <->
  (1 <= length child)%nat /\ Forall valid_child child.
Proof.
  cbn [SetOperation_Validate].
  rewrite andThen_None, violation_None, Nat.ltb_ge.
  apply and_iff_compat_l.
  induction child as [|item rest IH].
  - split; [constructor | reflexivity].
  - rewrite !andThen_None, required_None, IH. split.
    + intros ([c ->] & Hc & Hrest). constructor; [| assumption].
      exists c. split; [reflexivity |].
      destruct (SetOperation_Child_Validate c); [discriminate | reflexivity].
    + intros H. inversion H as [|? ? (c & -> & Hc) Hrest]; subst.
      rewrite Hc. eauto.
Qed.

(** The claim as stated fails: an exclusion with one operand and an
    exclusion with three operands are accepted by validation. *)
Lemma exclusion_with_one_or_three_operands_accepted :
  let this :=
    Some (mkSetOperation_Child (Some (SetOperation_Child_XThis (Some mkThis))) None []) in
  let one :=
    mkUsersetRewrite (Some (UsersetRewrite_Exclusion (Some (mkSetOperation [this])))) None in
  let three :=
    mkUsersetRewrite
      (Some (UsersetRewrite_Exclusion (Some (mkSetOperation [this; this; this])))) None in
  (UsersetRewrite_Validate one = None
   /\ is_exclusion one = true /\ length (operands one) = 1%nat)
  /\ (UsersetRewrite_Validate three = None
      /\ is_exclusion three = true /\ length (operands three) = 3%nat).
Proof. cbv zeta. repeat split. Qed.

(** Validation of an exclusion is validation of its operands. *)
Lemma UsersetRewrite_Validate_Exclusion (o : option SetOperation)
    (sp : option SourcePosition) :
  UsersetRewrite_Validate (mkUsersetRewrite (Some (UsersetRewrite_Exclusion o)) sp) = None
  <-> exists child, o = Some (mkSetOperation child)
                    /\ (1 <= length child)%nat /\ Forall valid_child child.
Proof.
  destruct o as [[child]|].
  - pose proof (SetOperation_Validate_None child) as Hiff.
    cbn [UsersetRewrite_Validate].
    destruct (SetOperation_Validate (mkSetOperation child)) eqn:Hop.
    + split; [discriminate |]. intros (child' & H & Hv). inversion H; subst.
      apply Hiff in Hv. discriminate.
    + split.
      * intros _. exists child. split; [reflexivity | now apply Hiff].
      * intros _. destruct sp; reflexivity.
  - split; [discriminate |]. intros (child & H & _). discriminate.
Qed.

(** C6 (amended). A [UsersetRewrite] whose operation is the exclusion is
    accepted by validation exactly when it has at least one child and every
    child is present and itself accepted; validation puts no upper limit on
    the number of children, and does not ask for two. *)
Theorem UsersetRewrite_Validate_exclusion (m : UsersetRewrite) :
  is_exclusion m = true ->
  (UsersetRewrite_Validate m = None <->
   (1 <= length (operands m))%nat /\ Forall valid_child (operands m)).
Proof.
  destruct m as [[[o|o|o]|] sp]; try discriminate. intros _.
  rewrite UsersetRewrite_Validate_Exclusion.
  unfold operands. cbn [GetRewriteOperation].
  destruct o as [[child]|]; cbn [GetChild].
  - split.
    + intros (child' & H & Hv). inversion H; subst. exact Hv.
    + eauto.
  - split.
    + intros (child & H & _). discriminate.
    + simpl. lia.
Qed.

(** The theorem at the exclusion with the single operand [_this]. *)
Lemma UsersetRewrite_Validate_exclusion_witness :
  let this :=
    Some (mkSetOperation_Child (Some (SetOperation_Child_XThis (Some mkThis))) None []) in
  let one :=
    mkUsersetRewrite (Some (UsersetRewrite_Exclusion (Some (mkSetOperation [this])))) None in
  UsersetRewrite_Validate one = None
  /\ (1 <= length (operands one))%nat /\ Forall valid_child (operands one).
Proof.
  cbv zeta. split; [reflexivity |].
  apply (UsersetRewrite_Validate_exclusion
           (mkUsersetRewrite (Some (UsersetRewrite_Exclusion (Some (mkSetOperation
              [Some (mkSetOperation_Child (Some (SetOperation_Child_XThis (Some mkThis)))
                      None [])])))) None)).
  - reflexivity.
  - reflexivity.
Defined.

(** Any number of operands, one or more, is accepted. *)
Lemma exclusion_any_number_of_operands (n : nat) :
  let this :=
    Some (mkSetOperation_Child (Some (SetOperation_Child_XThis (Some mkThis))) None []) in
  (1 <= n)%nat ->
  UsersetRewrite_Validate
    (mkUsersetRewrite
       (Some (UsersetRewrite_Exclusion (Some (mkSetOperation (repeat this n))))) None)
  = None.
Proof.
  cbv zeta. intros Hn. apply UsersetRewrite_Validate_Exclusion.
  eexists. split; [reflexivity |].
  rewrite repeat_length. split; [assumption |].
  clear Hn. induction n as [|n IH]; simpl; constructor.
  - eexists. split; reflexivity.
  - exact IH.
Qed.

End CoreProperties.

(* ===================================================================== *)
(** * Properties of the optimized-revision cache                          *)
(* ===================================================================== *)

Section RevisionsProperties.
Import Revisions.

(** ** The tests of the repository, run on the model *)

(** [TestOptimizedRevisionCache]: each case gives the expected revisions
    and leaves no response unused in the mock. *)
Example TestOptimizedRevisionCache_single_request :
  callsEvery5ms 1 0 [Fresh one 0] (NewCachedOptimizedRevisions 0)
  = Some ([Some (Returned one)], []).
Proof. reflexivity. Qed.

Example TestOptimizedRevisionCache_simple_no_caching_request :
  callsEvery5ms 3 0 [Fresh one 0; Fresh two 0; Fresh three 0]
    (NewCachedOptimizedRevisions 0)
  = Some ([Some (Returned one); Some (Returned two); Some (Returned three)], []).
Proof. reflexivity. Qed.

Example TestOptimizedRevisionCache_simple_cached_once :
  callsEvery5ms 3 0 [Fresh one (7 * Millisecond); Fresh two 0]
    (NewCachedOptimizedRevisions 0)
  = Some ([Some (Returned one); Some (Returned one); Some (Returned two)], []).
Proof. reflexivity. Qed.

Example TestOptimizedRevisionCache_cached_by_staleness :
  callsEvery5ms 4 0 [Fresh one 0; Fresh two 0]
    (NewCachedOptimizedRevisions (7 * Millisecond))
  = Some ([Some (Returned one); Some (Returned one);
           Some (Returned two); Some (Returned two)], []).
Proof. reflexivity. Qed.

Example TestOptimizedRevisionCache_cached_by_staleness_and_validity :
  callsEvery5ms 4 0 [Fresh one (4 * Millisecond); Fresh two 0; Fresh three 0]
    (NewCachedOptimizedRevisions (2 * Millisecond))
  = Some ([Some (Returned one); Some (Returned one);
           Some (Returned two); Some (Returned three)], []).
Proof. reflexivity. Qed.

Example TestOptimizedRevisionCache_cached_for_a_while :
  callsEvery5ms 7 0 [Fresh one (28 * Millisecond); Fresh two 0]
    (NewCachedOptimizedRevisions 0)
  = Some ([Some (Returned one); Some (Returned one); Some (Returned one);
           Some (Returned one); Some (Returned one); Some (Returned one);
           Some (Returned two)], []).
Proof. reflexivity. Qed.

(** [TestOptimizedRevisionCacheSingleFlight]: ten callers, one millisecond
    apart, while the function takes fifty milliseconds to return. *)
Example TestOptimizedRevisionCacheSingleFlight :
  let requests := map (fun i => (i, Z.of_nat i * Millisecond)) (seq 0 10) in
  let c := run (NewCachedOptimizedRevisions 0)
             (arrivals requests ++ [Complete (Fresh one 0)]) in
  refreshes c = 1%nat
  /\ delivered c = map (fun i => (i, Returned one)) (rev (seq 0 10)).
Proof. split; reflexivity. Qed.

(** [TestSingleFlightError] *)
Example TestSingleFlightError :
  let c := OptimizedRevision (RefreshError "fail") 0 (NewCachedOptimizedRevisions (Revision := Z) 0) in
  result c = Some (Failed "fail") /\ refreshes c = 1%nat /\ cached c = None.
Proof. repeat split. Qed.

(** Scenario 5 of the spec: [max_staleness] 10ms, validity 0; ten calls
    within 5ms make one refresh, and a call after 20ms makes another. *)
Example scenario_revision_cache :
  let requests := map (fun i => (i, Z.of_nat i * (Millisecond / 2))) (seq 0 10) in
  let c := run (NewCachedOptimizedRevisions (10 * Millisecond))
             (arrivals requests ++ [Complete (Fresh one 0)]) in
  refreshes c = 1%nat
  /\ refreshes (step c (Request 10%nat (20 * Millisecond))) = 2%nat.
Proof. split; reflexivity. Qed.

(** ** General properties *)

Section AnyRevision.
Context {Revision : Type}.
Implicit Types (c : CachedOptimizedRevisions Revision) (r : Refresh).

Lemma valid_at_cached c c' (now : Time) :
  cached c' = cached c -> valid_at now c' = valid_at now c.
Proof. unfold valid_at. now intros ->. Qed.

(** A cached value that is no longer valid stays so as time goes on. *)
Lemma valid_at_later c (earlier now : Time) :
  earlier <= now -> valid_at earlier c = None -> valid_at now c = None.
Proof.
  unfold valid_at. intros Hle. destruct (cached c) as [[revision valid_until]|]; auto.
  destruct (Z.ltb_spec earlier valid_until); [discriminate |]. intros _.
  destruct (Z.ltb_spec now valid_until); [lia | reflexivity].
Qed.

Lemma step_Request_join (caller : nat) (now : Time) c r :
  in_flight c = Some r ->
  valid_at now c = None ->
  step c (Request caller now)
  = mkCache (max_staleness c) (cached c)
      (Some (mkRefresh (started r) (caller :: waiters r)))
      (refreshes c) (delivered c).
Proof. intros Hf Hv. unfold step. now rewrite Hv, Hf. Qed.

Lemma step_Request_start (caller : nat) (now : Time) c :
  in_flight c = None ->
  valid_at now c = None ->
  step c (Request caller now)
  = mkCache (max_staleness c) (cached c)
      (Some (mkRefresh now [caller])) (S (refreshes c)) (delivered c).
Proof. intros Hf Hv. unfold step. now rewrite Hv, Hf. Qed.

Lemma step_Complete_RefreshError (err : error) c r :
  in_flight c = Some r ->
  step c (Complete (RefreshError err))
  = mkCache (max_staleness c) (cached c) None (refreshes c)
      (map (fun w => (w, Failed err)) (waiters r) ++ delivered c).
Proof. intros Hf. unfold step. now rewrite Hf. Qed.

Lemma step_Complete_Fresh (revision : Revision) (v : Duration) c r :
  in_flight c = Some r ->
  step c (Complete (Fresh revision v))
  = mkCache (max_staleness c)
      (Some (revision, started r + v + max_staleness c)) None (refreshes c)
      (map (fun w => (w, Returned revision)) (waiters r) ++ delivered c).
Proof. intros Hf. unfold step. now rewrite Hf. Qed.

Lemma run_cons c (e : event Revision) (events : list (event Revision)) :
  run c (e :: events) = run (step c e) events.
Proof. reflexivity. Qed.

(** Requests that arrive while a refresh is in flight and no cached
    revision is valid join the refresh: nothing else changes. *)
Lemma run_arrivals_join (requests : list (nat * Time)) c r :
  in_flight c = Some r ->
  Forall (fun q => valid_at (snd q) c = None) requests ->
  run c (arrivals requests)
  = mkCache (max_staleness c) (cached c)
      (Some (mkRefresh (started r) (callers requests ++ waiters r)))
      (refreshes c) (delivered c).
Proof.
  revert c r. induction requests as [|[caller now] rest IH]; intros c r Hf Hall.
  - destruct c, r. simpl in *. now subst.
  - inversion Hall as [|? ? Hnow Hrest]; subst. simpl in Hnow.
    change (arrivals ((caller, now) :: rest))
      with (Request (Revision := Revision) caller now :: arrivals rest).
    rewrite run_cons, (step_Request_join caller now c r Hf Hnow).
    rewrite (IH _ (mkRefresh (started r) (caller :: waiters r))).
    + simpl. unfold callers. simpl. now rewrite <- app_assoc.
    + reflexivity.
    + eapply Forall_impl; [exact Hrest |]. intros q Hq. simpl.
      rewrite <- Hq. now apply valid_at_cached.
Qed.

(** The first such request, when no refresh is in flight, starts one. *)
Lemma run_arrivals_start (caller : nat) (now : Time) (rest : list (nat * Time)) c :
  in_flight c = None ->
  Forall (fun q => valid_at (snd q) c = None) ((caller, now) :: rest) ->
  run c (arrivals ((caller, now) :: rest))
  = mkCache (max_staleness c) (cached c)
      (Some (mkRefresh now (callers ((caller, now) :: rest))))
      (S (refreshes c)) (delivered c).
Proof.
  intros Hf Hall. inversion Hall as [|? ? Hnow Hrest]; subst. simpl in Hnow.
  change (arrivals ((caller, now) :: rest))
    with (Request (Revision := Revision) caller now :: arrivals rest).
  rewrite run_cons, (step_Request_start caller now c Hf Hnow).
  rewrite (run_arrivals_join rest _ (mkRefresh now [caller])).
  - reflexivity.
  - reflexivity.
  - eapply Forall_impl; [exact Hrest |]. intros q Hq. simpl.
    rewrite <- Hq. now apply valid_at_cached.
Qed.

Lemma run_app c (first second : list (event Revision)) :
  run c (first ++ second) = run (run c first) second.
Proof. unfold run. apply fold_left_app. Qed.

(** One call with no other caller around. *)
Lemma OptimizedRevision_valid (resp : response Revision) (now : Time) c
    (revision : Revision) :
  in_flight c = None ->
  valid_at now c = Some revision ->
  OptimizedRevision resp now c
  = mkCache (max_staleness c) (cached c) None (refreshes c)
      ((0%nat, Returned revision) :: delivered c).
Proof.
  intros Hf Hv. unfold OptimizedRevision. rewrite !run_cons.
  unfold step at 2. rewrite Hv. unfold step. simpl. now rewrite Hf.
Qed.

Lemma OptimizedRevision_refresh (resp : response Revision) (now : Time) c :
  in_flight c = None ->
  valid_at now c = None ->
  OptimizedRevision resp now c
  = match resp with
    | Fresh revision validity_duration =>
        mkCache (max_staleness c)
          (Some (revision, now + validity_duration + max_staleness c))
          None (S (refreshes c)) ((0%nat, Returned revision) :: delivered c)
    | RefreshError err =>
        mkCache (max_staleness c) (cached c) None (S (refreshes c))
          ((0%nat, Failed err) :: delivered c)
    end.
Proof.
  intros Hf Hv. unfold OptimizedRevision. rewrite !run_cons.
  rewrite (step_Request_start 0%nat now c Hf Hv).
  destruct resp; reflexivity.
Qed.

(** Calls before [valid_until] return the cached revision and leave the
    cache as it is. *)
Lemma OptimizedRevisions_valid (calls : list (response Revision * Time)) c
    (revision : Revision) (valid_until : Time) :
  in_flight c = None ->
  cached c = Some (revision, valid_until) ->
  Forall (fun q => snd q < valid_until) calls ->
  OptimizedRevisions calls c
  = mkCache (max_staleness c) (cached c) None (refreshes c)
      (repeat (0%nat, Returned revision) (length calls) ++ delivered c).
Proof.
  revert c. induction calls as [|[resp now] rest IH]; intros c Hf Hc Hall.
  - destruct c. simpl in *. now subst.
  - inversion Hall as [|? ? Hnow Hrest]; subst. simpl in Hnow.
    change (OptimizedRevisions ((resp, now) :: rest) c)
      with (OptimizedRevisions rest (OptimizedRevision resp now c)).
    rewrite (OptimizedRevision_valid resp now c revision Hf).
    + rewrite IH; [| reflexivity | exact Hc | exact Hrest].
      cbn [max_staleness cached refreshes delivered length].
      f_equal. change (?x :: ?l) with ([x] ++ l) at 1.
      rewrite app_assoc. f_equal.
      change ([(0%nat, Returned revision)]) with (repeat (0%nat, Returned revision) 1).
      rewrite <- repeat_app. f_equal. lia.
    + unfold valid_at. rewrite Hc.
      destruct (Z.ltb_spec now valid_until); [reflexivity | lia].
Qed.

(** C1. When a revision is fetched at time [t] with validity duration [v]
    by a cache configured with [max_staleness], the cache stores
    [valid_until = t + v + max_staleness]; every subsequent call at a time
    before [valid_until] returns the cached revision without a call to the
    datastore's function; and a call at [valid_until] or later fetches
    again and returns the new revision. *)
Theorem OptimizedRevision_cached_until_valid_until c (t : Time)
    (revision : Revision) (v : Duration) :
  in_flight c = None ->
  valid_at t c = None ->
  let fetched := OptimizedRevision (Fresh revision v) t c in
  let valid_until := t + v + max_staleness c in
  (cached fetched = Some (revision, valid_until)
   /\ refreshes fetched = S (refreshes c)
   /\ result fetched = Some (Returned revision))
  /\ (forall calls : list (response Revision * Time),
        Forall (fun q => snd q < valid_until) calls ->
        let after := OptimizedRevisions calls fetched in
        refreshes after = refreshes fetched
        /\ cached after = cached fetched
        /\ delivered after
           = repeat (0%nat, Returned revision) (length calls) ++ delivered fetched)
  /\ (forall (calls : list (response Revision * Time)) (now : Time)
        (revision' : Revision) (v' : Duration),
        Forall (fun q => snd q < valid_until) calls ->
        valid_until <= now ->
        let after := OptimizedRevisions calls fetched in
        let again := OptimizedRevision (Fresh revision' v') now after in
        refreshes again = S (refreshes after)
        /\ result again = Some (Returned revision')
        /\ cached again = Some (revision', now + v' + max_staleness c)).
Proof.
  intros Hf Hv. cbv zeta.
  rewrite (OptimizedRevision_refresh (Fresh revision v) t c Hf Hv).
  split; [repeat split |]. split.
  - intros calls Hcalls.
    erewrite OptimizedRevisions_valid; [| reflexivity | reflexivity | exact Hcalls].
    repeat split.
  - intros calls now revision' v' Hcalls Hnow.
    erewrite OptimizedRevisions_valid; [| reflexivity | reflexivity | exact Hcalls].
    rewrite OptimizedRevision_refresh.
    + repeat split.
    + reflexivity.
    + unfold valid_at. cbn [cached].
      destruct (Z.ltb_spec now (t + v + max_staleness c)); [lia | reflexivity].
Qed.

(** C2. Any number [n >= 1] of calls that arrive while no cached revision
    is valid are served by one refresh: if none is in flight the first of
    them starts it with one call to the datastore's function, if one is in
    flight they join it and the function is not called again; when the
    refresh returns, each of the callers receives the revision it
    produced. *)
Theorem single_flight_refresh c (requests : list (nat * Time))
    (revision : Revision) (v : Duration) :
  requests <> [] ->
  Forall (fun q => valid_at (snd q) c = None) requests ->
  let c' := run c (arrivals requests ++ [Complete (Fresh revision v)]) in
  match in_flight c with
  | None =>
      refreshes c' = S (refreshes c)
      /\ delivered c'
         = map (fun w => (w, Returned revision)) (callers requests) ++ delivered c
  | Some r =>
      refreshes c' = refreshes c
      /\ delivered c'
         = map (fun w => (w, Returned revision)) (callers requests ++ waiters r)
           ++ delivered c
  end
  /\ in_flight c' = None
  /\ (forall q, In q requests -> In (fst q, Returned revision) (delivered c')).
Proof.
  intros Hne Hall. cbv zeta. rewrite run_app.
  assert (Hin : forall (ws : list nat) (rest : list (nat * outcome Revision)) q,
             In q requests ->
             In (fst q, Returned revision)
                (map (fun w => (w, Returned revision)) (callers requests ++ ws) ++ rest)).
  { intros ws rest q Hq. apply in_or_app. left.
    apply (in_map (fun w => (w, Returned revision))).
    apply in_or_app. left. unfold callers. rewrite <- in_rev. now apply in_map. }
  destruct (in_flight c) as [r|] eqn:Hf.
  - rewrite (run_arrivals_join requests c r Hf Hall).
    cbn. repeat split. intros q Hq. now apply Hin.
  - destruct requests as [|[caller now] rest]; [congruence |].
    rewrite (run_arrivals_start caller now rest c Hf Hall).
    cbn. repeat split. intros q Hq.
    specialize (Hin [] (delivered c) q Hq). now rewrite app_nil_r in Hin.
Qed.

(** C3. If the refresh returns an error, every caller joined on it receives
    that error and the cached value is what it was before; a later request
    then starts a new refresh, with a new call to the datastore's
    function. *)
Theorem refresh_error_fails_all_waiters c (requests : list (nat * Time))
    (err : error) :
  requests <> [] ->
  Forall (fun q => valid_at (snd q) c = None) requests ->
  let c' := run c (arrivals requests ++ [Complete (RefreshError err)]) in
  delivered c'
  = map (fun w => (w, Failed err))
      (callers requests
       ++ match in_flight c with Some r => waiters r | None => [] end)
    ++ delivered c
  /\ cached c' = cached c
  /\ in_flight c' = None
  /\ (forall (caller : nat) (now : Time),
        Forall (fun q => snd q <= now) requests ->
        let retried := step c' (Request caller now) in
        refreshes retried = S (refreshes c')
        /\ in_flight retried = Some (mkRefresh now [caller])
        /\ delivered retried = delivered c').
Proof.
  intros Hne Hall. cbv zeta. rewrite run_app.
  assert (Hlater : forall now, Forall (fun q => snd q <= now) requests ->
                               valid_at now c = None).
  { intros now Hle. destruct requests as [|q rest]; [congruence |].
    inversion Hall; inversion Hle; subst. eapply valid_at_later; eauto. }
  assert (Hjoined : exists started,
    run c (arrivals requests)
    = mkCache (max_staleness c) (cached c)
        (Some (mkRefresh started
           (callers requests
            ++ match in_flight c with Some r => waiters r | None => [] end)))
        (refreshes (run c (arrivals requests))) (delivered c)).
  { destruct (in_flight c) as [r|] eqn:Hf.
    - rewrite (run_arrivals_join requests c r Hf Hall). eauto.
    - destruct requests as [|[caller0 now0] rest]; [congruence |].
      rewrite (run_arrivals_start caller0 now0 rest c Hf Hall).
      rewrite app_nil_r. eauto. }
  destruct Hjoined as [started Hjoined]. rewrite Hjoined.
  rewrite run_cons. erewrite step_Complete_RefreshError by reflexivity.
  change (run ?x []) with x.
  cbn [max_staleness cached in_flight refreshes delivered waiters].
  split; [reflexivity |]. split; [reflexivity |]. split; [reflexivity |].
  intros caller now Hle.
  rewrite step_Request_start.
  - repeat split.
  - reflexivity.
  - rewrite <- (Hlater now Hle). now apply valid_at_cached.
Qed.

End AnyRevision.

(** The theorem on the case "cached by staleness and validity" of the test:
    [max_staleness] 2ms, revision [one] fetched at 0 with validity 4ms, so
    valid until 6ms; the call at 5ms returns [one] without a refresh, the
    call at 10ms fetches [two]. *)
Lemma OptimizedRevision_cached_until_valid_until_witness :
  let fetched :=
    OptimizedRevision (Fresh one (4 * Millisecond)) 0
      (NewCachedOptimizedRevisions (2 * Millisecond)) in
  let after := OptimizedRevisions [(Fresh two 0, 5 * Millisecond)] fetched in
  let again := OptimizedRevision (Fresh two 0) (10 * Millisecond) after in
  cached fetched = Some (one, 6 * Millisecond)
  /\ refreshes after = 1%nat
  /\ result after = Some (Returned one)
  /\ refreshes again = 2%nat
  /\ result again = Some (Returned two).
Proof.
  pose proof (OptimizedRevision_cached_until_valid_until
                (NewCachedOptimizedRevisions (2 * Millisecond)) 0 one (4 * Millisecond)
                eq_refl eq_refl) as H.
  cbv zeta in H. destruct H as ((Hcached & Hfetched & _) & Hvalid & Hagain).
  specialize (Hvalid [(Fresh two 0, 5 * Millisecond)]
                ltac:(repeat constructor)).
  specialize (Hagain [(Fresh two 0, 5 * Millisecond)] (10 * Millisecond) two 0
                ltac:(repeat constructor) ltac:(vm_compute; discriminate)).
  cbv zeta in Hvalid, Hagain.
  destruct Hvalid as (Hr & _ & Hd). destruct Hagain as (Hr2 & Hres & _).
  split; [exact Hcached |]. split; [now rewrite Hr, Hfetched |].
  split; [unfold result; now rewrite Hd |].
  split; [now rewrite Hr2, Hr, Hfetched | exact Hres].
Defined.

(** The theorem on three callers of a cache without cached revision. *)
Lemma single_flight_refresh_witness :
  let c := run (NewCachedOptimizedRevisions 0)
             (arrivals [(1%nat, 0); (2%nat, 1); (3%nat, 2)]
              ++ [Complete (Fresh one 0)]) in
  refreshes c = 1%nat
  /\ delivered c = [(3%nat, Returned one); (2%nat, Returned one); (1%nat, Returned one)].
Proof.
  pose proof (single_flight_refresh (NewCachedOptimizedRevisions 0)
                [(1%nat, 0); (2%nat, 1); (3%nat, 2)] one 0
                ltac:(discriminate) ltac:(repeat constructor)) as H.
  cbv zeta in H. destruct H as ((Hr & Hd) & _).
  split; [exact Hr | exact Hd].
Defined.

(** The theorem on two callers whose refresh fails. *)
Lemma refresh_error_fails_all_waiters_witness :
  let c := run (NewCachedOptimizedRevisions (Revision := Z) 0)
             (arrivals [(1%nat, 0); (2%nat, 1)] ++ [Complete (RefreshError "fail")]) in
  delivered c = [(2%nat, Failed "fail"); (1%nat, Failed "fail")]
  /\ cached c = None
  /\ refreshes (step c (Request 3%nat 5)) = S (refreshes c).
Proof.
  pose proof (refresh_error_fails_all_waiters (NewCachedOptimizedRevisions (Revision := Z) 0)
                [(1%nat, 0); (2%nat, 1)] "fail"
                ltac:(discriminate) ltac:(repeat constructor)) as H.
  cbv zeta in H. destruct H as (Hd & Hc & _ & Hretry).
  split; [exact Hd |]. split; [exact Hc |].
  apply (Hretry 3%nat 5). repeat constructor; simpl; lia.
Defined.

End RevisionsProperties.

(* ===================================================================== *)
(** * Properties of the reachability entrypoints                          *)
(* ===================================================================== *)

Section ReachabilityProperties.
Import Reachability.

(** Induction on rewrite trees, with the hypothesis for every child of a
    nested rewrite. *)
Lemma Child_tree_ind (P : Child -> Prop) :
  P _this ->
  (forall rel, P (computed_userset rel)) ->
  (forall tupleset rel, P (tuple_to_userset tupleset rel)) ->
  (forall op children, Forall P children -> P (userset_rewrite op children)) ->
  P _nil ->
  forall c, P c.
Proof.
  intros Hthis Hcu Httu Hrw Hnil.
  fix IH 1. intros [| rel | tupleset rel | op children |].
  - exact Hthis.
  - apply Hcu.
  - apply Httu.
  - apply Hrw. induction children as [|c cs IHcs]; constructor.
    + apply IH.
    + exact IHcs.
  - exact Hnil.
Qed.

(** "The full reachability graph for the view relation will have three
    entrypoints": resource#viewer and resource#owner (computed userset) and
    organization#admin (tupleset to userset). All of them are direct. *)
Example view_reachability_graph :
  map (fun r => (key r, kind (entrypoint r), result_status (entrypoint r)))
    (ReachabilityGraph "resource" "view" resourceAllowedDirect (Some viewRewrite))
  = [(BySubjectRelation (mkRelationReference "resource" "viewer"),
      COMPUTED_USERSET_ENTRYPOINT, DIRECT_OPERATION_RESULT);
     (BySubjectRelation (mkRelationReference "resource" "owner"),
      COMPUTED_USERSET_ENTRYPOINT, DIRECT_OPERATION_RESULT);
     (BySubjectRelation (mkRelationReference "organization" "admin"),
      TUPLESET_TO_USERSET_ENTRYPOINT, DIRECT_OPERATION_RESULT)].
Proof. reflexivity. Qed.

(** [viewer + (owner - org->admin)]: the operands of the exclusion are
    conditional, the first operand of the union is direct. *)
Example exclusion_reachability_graph :
  map (fun r => (position r, result_status (entrypoint r)))
    (ReachabilityGraph "resource" "view" resourceAllowedDirect
       (Some (mkUsersetRewrite UNION
                [computed_userset "viewer";
                 userset_rewrite EXCLUSION
                   [computed_userset "owner"; tuple_to_userset "org" "admin"]])))
  = [([0%nat], DIRECT_OPERATION_RESULT);
     ([1%nat; 0%nat], REACHABLE_CONDITIONAL_RESULT);
     ([1%nat; 1%nat], REACHABLE_CONDITIONAL_RESULT)].
Proof. reflexivity. Qed.

Section AnyGraph.
Variable ns : string.
Variable target : string.
Variable AllowedDirect : string -> list AllowedRelation.

(** What the walk records under a node: the position extends the position
    of the node, and the status is the status carried to the node if all
    operations in between are unions, and conditional otherwise. *)
Lemma childEntrypoints_status (c : Child) :
  forall (status : EntrypointResultStatus) (pos : list nat) (r : Recorded),
    In r (childEntrypoints ns target AllowedDirect status pos c) ->
    exists below,
      position r = pos ++ below
      /\ result_status (entrypoint r)
         = if forallb is_union (ancestors c below)
           then status else REACHABLE_CONDITIONAL_RESULT.
Proof.
  induction c as [| rel | tupleset rel | op children IH |] using Child_tree_ind;
    intros status pos r Hin.
  - unfold childEntrypoints, relationEntrypoints in Hin.
    apply in_map_iff in Hin as (a & <- & _).
    exists []. now rewrite app_nil_r.
  - destruct Hin as [<- | []]. exists []. now rewrite app_nil_r.
  - unfold childEntrypoints in Hin.
    apply in_map_iff in Hin as (ns' & <- & _).
    exists []. now rewrite app_nil_r.
  - cbn [childEntrypoints] in Hin.
    assert (Heach : forall (i : nat) (cs : list Child),
      Forall (fun c' => forall status pos r,
                In r (childEntrypoints ns target AllowedDirect status pos c') ->
                exists below,
                  position r = pos ++ below
                  /\ result_status (entrypoint r)
                     = if forallb is_union (ancestors c' below)
                       then status else REACHABLE_CONDITIONAL_RESULT) cs ->
      In r ((fix each (i : nat) (cs : list Child) : list Recorded :=
               match cs with
               | [] => []
               | c' :: cs' =>
                   childEntrypoints ns target AllowedDirect (under op status)
                     (pos ++ [i]) c' ++ each (S i) cs'
               end) i cs) ->
      exists j c' below,
        nth_error cs j = Some c'
        /\ position r = pos ++ (i + j)%nat :: below
        /\ result_status (entrypoint r)
           = if forallb is_union (ancestors c' below)
             then under op status else REACHABLE_CONDITIONAL_RESULT).
    { intros i cs Hcs. revert i.
      induction Hcs as [|c' cs' Hc' _ IHcs]; intros i Hr; [destruct Hr |].
      apply in_app_or in Hr as [Hr | Hr].
      - apply Hc' in Hr as (below & Hpos & Hst).
        exists 0%nat, c', below. split; [reflexivity |].
        rewrite Nat.add_0_r, Hpos, <- app_assoc. auto.
      - apply IHcs in Hr as (j & c'' & below & Hnth & Hpos & Hst).
        exists (S j), c'', below. split; [exact Hnth |].
        rewrite Hpos. split; [| exact Hst].
        replace (i + S j)%nat with (S i + j)%nat by lia. reflexivity. }
    destruct (Heach 0%nat children IH Hin) as (j & c' & below & Hnth & Hpos & Hst).
    exists (j :: below). split; [exact Hpos |].
    cbn [ancestors forallb]. rewrite Hnth, Hst.
    destruct op; cbn [is_union under andb]; try reflexivity;
      now destruct (forallb is_union (ancestors c' below)).
  - destruct Hin.
Qed.

(** C5. In the reachability graph of a relation, the result status of an
    entrypoint is the direct one if and only if every operation above its
    position in the rewrite tree is a union; otherwise, under at least one
    intersection or exclusion, it is the conditional one. The entrypoints
    of a relation without rewrite have no operation above them and are
    direct. *)
Theorem entrypoint_direct_iff_ancestors_union (rewrite : option UsersetRewrite)
    (r : Recorded) :
  In r (ReachabilityGraph ns target AllowedDirect rewrite) ->
  let above :=
    match rewrite with
    | Some rw => ancestors (root rw) (position r)
    | None => []
    end in
  (result_status (entrypoint r) = DIRECT_OPERATION_RESULT
   <-> Forall (fun op => op = UNION) above)
  /\ (~ Forall (fun op => op = UNION) above ->
      result_status (entrypoint r) = REACHABLE_CONDITIONAL_RESULT
      /\ exists op, In op above /\ (op = INTERSECTION \/ op = EXCLUSION)).
Proof.
  intros Hin. cbv zeta.
  assert (Hunion : forall ops, forallb is_union ops = true
                               <-> Forall (fun op => op = UNION) ops).
  { intros ops. rewrite forallb_forall, List.Forall_forall. split.
    - intros H op Hop. specialize (H op Hop). now destruct op.
    - intros H op Hop. now rewrite (H op Hop). }
  assert (Hst : result_status (entrypoint r)
                = if forallb is_union
                       match rewrite with
                       | Some rw => ancestors (root rw) (position r)
                       | None => []
                       end
                  then DIRECT_OPERATION_RESULT else REACHABLE_CONDITIONAL_RESULT).
  { destruct rewrite as [rw|]; unfold ReachabilityGraph in Hin.
    - apply childEntrypoints_status in Hin as (below & Hpos & Hst).
      simpl in Hpos. now rewrite Hpos.
    - unfold relationEntrypoints in Hin.
      apply in_map_iff in Hin as (a & <- & _). reflexivity. }
  rewrite Hst, <- Hunion.
  destruct (forallb is_union _) eqn:Hall.
  - split; [tauto |]. intros H. now elim H.
  - split; [split; discriminate |]. intros _. split; [reflexivity |].
    assert (Hex : forall ops, forallb is_union ops = false ->
                              exists op, In op ops /\ is_union op = false).
    { induction ops as [|o ops IHops]; cbn [forallb]; [discriminate |].
      destruct (is_union o) eqn:Ho; cbn [andb].
      - intros H. destruct (IHops H) as (op & Hop & Hn).
        exists op. split; [now right | exact Hn].
      - intros _. exists o. split; [now left | exact Ho]. }
    destruct (Hex _ Hall) as (op & Hop & Hnot).
    exists op. split; [exact Hop |]. destruct op; auto. discriminate.
Qed.

End AnyGraph.

(** The theorem on [viewer + (owner - org->admin)], at the entrypoint of
    [owner]: it lies under the exclusion and is conditional. *)
Lemma entrypoint_direct_iff_ancestors_union_witness :
  let rw :=
    mkUsersetRewrite UNION
      [computed_userset "viewer";
       userset_rewrite EXCLUSION
         [computed_userset "owner"; tuple_to_userset "org" "admin"]] in
  let r :=
    mkRecorded (BySubjectRelation (mkRelationReference "resource" "owner"))
      [1%nat; 0%nat]
      (mkReachabilityEntrypoint COMPUTED_USERSET_ENTRYPOINT
         (mkRelationReference "resource" "view") REACHABLE_CONDITIONAL_RESULT "") in
  In r (ReachabilityGraph "resource" "view" resourceAllowedDirect (Some rw))
  /\ ancestors (root rw) (position r) = [UNION; EXCLUSION]
  /\ (result_status (entrypoint r) = DIRECT_OPERATION_RESULT
      <-> Forall (fun op => op = UNION) (ancestors (root rw) (position r))).
Proof.
  cbv zeta. split; [right; left; reflexivity |]. split; [reflexivity |].
  apply (entrypoint_direct_iff_ancestors_union "resource" "view"
           resourceAllowedDirect
           (Some (mkUsersetRewrite UNION
              [computed_userset "viewer";
               userset_rewrite EXCLUSION
                 [computed_userset "owner"; tuple_to_userset "org" "admin"]]))).
  right. left. reflexivity.
Defined.

End ReachabilityProperties.

(* ===================================================================== *)
(** * Further properties of the CockroachDB datastore options             *)
(* ===================================================================== *)

Section CrdbComposition.
Import Crdb.

(** Two option structs with the same content in every field are equal. *)
Lemma crdbOptions_ext (a b : crdbOptions) :
  (forall f, get f a = get f b) -> a = b.
Proof.
  intros H.
  destruct a as [[ar1 ar2 ar3 ar4 ar5 ar6] [aw1 aw2 aw3 aw4 aw5 aw6]
                   a3 a4 a5 a6 a7 a8 a9 a10 a11 a12 a13].
  destruct b as [[br1 br2 br3 br4 br5 br6] [bw1 bw2 bw3 bw4 bw5 bw6]
                   b3 b4 b5 b6 b7 b8 b9 b10 b11 b12 b13].
  pose proof (H (fReadPool fConnHealthCheckInterval)) as R1.
  pose proof (H (fReadPool fConnMaxIdleTime)) as R2.
  pose proof (H (fReadPool fConnMaxLifetime)) as R3.
  pose proof (H (fReadPool fConnMaxLifetimeJitter)) as R4.
  pose proof (H (fReadPool fMinOpenConns)) as R5.
  pose proof (H (fReadPool fMaxOpenConns)) as R6.
  pose proof (H (fWritePool fConnHealthCheckInterval)) as W1.
  pose proof (H (fWritePool fConnMaxIdleTime)) as W2.
  pose proof (H (fWritePool fConnMaxLifetime)) as W3.
  pose proof (H (fWritePool fConnMaxLifetimeJitter)) as W4.
  pose proof (H (fWritePool fMinOpenConns)) as W5.
  pose proof (H (fWritePool fMaxOpenConns)) as W6.
  pose proof (H fWatchBufferLength) as H3.
  pose proof (H fRevisionQuantization) as H4.
  pose proof (H fFollowerReadDelay) as H5.
  pose proof (H fMaxRevisionStalenessPercent) as H6.
  pose proof (H fGcWindow) as H7.
  pose proof (H fMaxRetries) as H8.
  pose proof (H fSplitAtUsersetCount) as H9.
  pose proof (H fOverlapStrategy) as H10.
  pose proof (H fOverlapKey) as H11.
  pose proof (H fDisableStats) as H12.
  pose proof (H fEnablePrometheusStats) as H13.
  cbn in *. congruence.
Qed.

(** The content of a field after a list of options: what the last option
    on that field assigned, or what was there before. *)
Lemma get_applyOptions (f : field) (options : list Option) (po : crdbOptions) :
  get f (applyOptions options po)
  = match lastAssigned f options with
    | Some v => v
    | None => get f po
    end.
Proof.
  unfold applyOptions, lastAssigned.
  revert po. induction options as [|option rest IH] using rev_ind; intros po.
  - reflexivity.
  - rewrite !fold_left_app. cbn [fold_left].
    destruct (decide (target option = f)) as [<- | Hne].
    + apply get_call_target.
    + rewrite get_call_other by exact Hne. apply IH.
Qed.

(** X1. Two options that assign different fields can be given in either
    order. *)
Theorem options_on_different_fields_commute (first second : Option)
    (po : crdbOptions) :
  target first <> target second ->
  call second (call first po) = call first (call second po).
Proof.
  intros Hne. apply crdbOptions_ext. intros f.
  destruct (decide (target second = f)) as [<- | H2].
  - rewrite get_call_target, get_call_other by exact Hne.
    now rewrite get_call_target.
  - rewrite (get_call_other second) by exact H2.
    destruct (decide (target first = f)) as [<- | H1].
    + now rewrite !get_call_target.
    + rewrite !(get_call_other first) by exact H1.
      now rewrite get_call_other by exact H2.
Qed.

Lemma options_on_different_fields_commute_witness :
  call (GCWindow Hour) (call (ReadConnsMaxOpen 8) initialConfig)
  = call (ReadConnsMaxOpen 8) (call (GCWindow Hour) initialConfig).
Proof.
  apply (options_on_different_fields_commute (ReadConnsMaxOpen 8) (GCWindow Hour)).
  discriminate.
Defined.

(** X2. An option makes an earlier option on the same field without effect;
    in particular, giving an option twice is giving it once. *)
Theorem option_overrides_earlier_option (first second : Option)
    (po : crdbOptions) :
  target first = target second ->
  call second (call first po) = call second po.
Proof.
  intros Heq. apply crdbOptions_ext. intros f.
  destruct (decide (target second = f)) as [<- | H2].
  - now rewrite !get_call_target.
  - rewrite !(get_call_other second) by exact H2.
    apply get_call_other. congruence.
Qed.

Lemma option_overrides_earlier_option_witness :
  call (MaxRetries 7) (call (MaxRetries 2) initialConfig)
  = call (MaxRetries 7) initialConfig.
Proof.
  apply (option_overrides_earlier_option (MaxRetries 2) (MaxRetries 7)).
  reflexivity.
Defined.

(** X3. The result of [generateConfig], the error included, depends only on
    the last option given for each field: two lists that agree on it give
    the same result. *)
Theorem generateConfig_last_option_per_field (options options' : list Option) :
  (forall f, lastAssigned f options = lastAssigned f options') ->
  generateConfig options = generateConfig options'.
Proof.
  intros Hlast.
  assert (Heq : applyOptions options initialConfig
                = applyOptions options' initialConfig).
  { apply crdbOptions_ext. intros f. now rewrite !get_applyOptions, Hlast. }
  unfold generateConfig. now rewrite Heq.
Qed.

Lemma generateConfig_last_option_per_field_witness :
  generateConfig [GCWindow Hour; MaxRetries 3; OverlapKey "k"; GCWindow (2 * Hour)]
  = generateConfig [OverlapKey "k"; GCWindow (2 * Hour); MaxRetries 3].
Proof.
  apply generateConfig_last_option_per_field.
  intros [[| | | | |]|[| | | | |]| | | | | | | | | | |]; reflexivity.
Defined.

(** X4. Options other than [RevisionQuantization] and [GCWindow] never make
    [generateConfig] fail; and as long as [GCWindow] is not given, it fails
    exactly when the quantization is 24 hours or more. *)
Theorem generateConfig_fails_only_on_quantization_and_window (options : list Option) :
  (untouched fRevisionQuantization options -> untouched fGcWindow options ->
   snd (generateConfig options) = None)
  /\ (untouched fGcWindow options ->
      (snd (generateConfig options) <> None
       <-> revisionQuantization (fst (generateConfig options)) >= 24 * Hour)).
Proof.
  assert (Hgc : untouched fGcWindow options ->
                gcWindow (applyOptions options initialConfig) = 24 * Hour).
  { intros H. pose proof (applyOptions_untouched _ _ H initialConfig) as E.
    cbn in E. now inversion E. }
  assert (Hrq : untouched fRevisionQuantization options ->
                revisionQuantization (applyOptions options initialConfig) = 5 * Second).
  { intros H. pose proof (applyOptions_untouched _ _ H initialConfig) as E.
    cbn in E. now inversion E. }
  split.
  - intros H1 H2. unfold generateConfig. rewrite (Hrq H1), (Hgc H2). reflexivity.
  - intros H2. rewrite generateConfig_computed. unfold generateConfig.
    rewrite (Hgc H2).
    destruct (Z.geb_spec (revisionQuantization (applyOptions options initialConfig))
                (24 * Hour)) as [Hge | Hlt]; cbn [snd].
    + split; [intros _; lia | intros _; discriminate].
    + split; [intros Herr; now elim Herr | intros Herr; lia].
Qed.

Lemma generateConfig_fails_only_on_quantization_and_window_witness :
  snd (generateConfig [MaxRetries 0; WatchBufferLength 0; OverlapStrategy ""]) = None
  /\ snd (generateConfig [RevisionQuantization (24 * Hour)]) <> None.
Proof.
  split.
  - apply (proj1 (generateConfig_fails_only_on_quantization_and_window
                    [MaxRetries 0; WatchBufferLength 0; OverlapStrategy ""]));
      repeat constructor; discriminate.
  - apply (proj2 (generateConfig_fails_only_on_quantization_and_window
                    [RevisionQuantization (24 * Hour)])).
    + repeat constructor; discriminate.
    + vm_compute. discriminate.
Defined.

End CrdbComposition.

(* ===================================================================== *)
(** * Further properties of the separating-context datastore proxy        *)
(* ===================================================================== *)

Section ProxyComposition.
Import Proxy.

Lemma SeparateContextWithTracing_span_logger (ctx : Context) :
  SeparateContextWithTracing ctx
  = mkContext None [] (Some (SpanFromContext ctx)) (log_Ctx ctx) [].
Proof.
  unfold SeparateContextWithTracing, log_Ctx. now destruct (loggerValue ctx).
Qed.

(** X5. Severing a context that has been severed changes nothing. *)
Theorem SeparateContextWithTracing_idempotent (ctx : Context) :
  SeparateContextWithTracing (SeparateContextWithTracing ctx)
  = SeparateContextWithTracing ctx.
Proof.
  rewrite (SeparateContextWithTracing_span_logger (SeparateContextWithTracing ctx)).
  rewrite (SeparateContextWithTracing_span_logger ctx). reflexivity.
Qed.

(** X6. The severed context is determined by the span and the logger of the
    incoming context: two contexts with the same span and the same logger
    are severed to the same context, whatever their deadlines, cancel
    functions and other values. *)
Theorem SeparateContextWithTracing_only_span_and_logger (ctx ctx' : Context) :
  SpanFromContext ctx = SpanFromContext ctx' ->
  log_Ctx ctx = log_Ctx ctx' ->
  SeparateContextWithTracing ctx = SeparateContextWithTracing ctx'.
Proof.
  intros Hspan Hlog. rewrite !SeparateContextWithTracing_span_logger.
  now rewrite Hspan, Hlog.
Qed.

Lemma SeparateContextWithTracing_only_span_and_logger_witness :
  let ctx := WithContext "request" (ContextWithSpan Background (recordingSpan 7)) in
  SeparateContextWithTracing (WithValue "user" "alice" (WithDeadline 100 1%nat ctx))
  = SeparateContextWithTracing (WithCancel 2%nat ctx).
Proof.
  cbv zeta.
  apply (SeparateContextWithTracing_only_span_and_logger
           (WithValue "user" "alice"
              (WithDeadline 100 1%nat
                 (WithContext "request" (ContextWithSpan Background (recordingSpan 7)))))
           (WithCancel 2%nat
              (WithContext "request" (ContextWithSpan Background (recordingSpan 7)))));
    reflexivity.
Defined.

(** X7. Wrapping a datastore in the proxy twice is the same as wrapping it
    once on every method of [datastore.Datastore] and of the readers handed
    out: the doubly wrapped datastore answers as the singly wrapped one.
    [Unwrap] is the exception: it removes one layer, so that on the double
    wrap it returns the single wrap, and on the single wrap the datastore
    itself. *)
Theorem ctxProxy_twice (T : Types) (d : Datastore T) :
  let once := mkCtxProxyStruct d in
  let twice := mkCtxProxyStruct (asDatastore once) in
  asDatastore once = NewSeparatingContextDatastoreProxy d
  /\ asDatastore twice
     = NewSeparatingContextDatastoreProxy (NewSeparatingContextDatastoreProxy d)
  /\ sameDatastore (asDatastore twice) (asDatastore once)
  /\ Unwrap once = d
  /\ Unwrap twice = asDatastore once.
Proof.
  cbv zeta. split; [reflexivity |]. split; [reflexivity |].
  split; [| split; reflexivity].
  unfold asDatastore, sameDatastore, sameReader.
  cbn [delegate ctxProxy ctxReader ReadWriteTx OptimizedRevision CheckRevision
       HeadRevision RevisionFromString Watch Features Statistics ReadyState Close
       SnapshotReader ReadCaveatByName ListAllCaveats LookupCaveatsWithNames
       ListAllNamespaces LookupNamespacesWithNames ReadNamespaceByName
       QueryRelationships ReverseQueryRelationships].
  repeat split; intros; rewrite ?SeparateContextWithTracing_span_logger; reflexivity.
Qed.

(** On [Unwrap] the two wraps do differ: over the observing delegate, the
    datastore that the double wrap unwraps to severs the context of
    [OptimizedRevision], the one that the single wrap unwraps to hands the
    context back as it came. *)
Lemma ctxProxy_twice_Unwrap_differs :
  let ctx := WithDeadline 100 1%nat Background in
  let once := mkCtxProxyStruct observer in
  let twice := mkCtxProxyStruct (asDatastore once) in
  OptimizedRevision (Unwrap once) ctx = (ctx, None)
  /\ OptimizedRevision (Unwrap twice) ctx = (SeparateContextWithTracing ctx, None)
  /\ SeparateContextWithTracing ctx <> ctx.
Proof. cbv zeta. repeat split. discriminate. Qed.

End ProxyComposition.

(* ===================================================================== *)
(** * Further properties of the patterns of core.proto                    *)
(* ===================================================================== *)

Section PatternProperties.
Import Regexp Core.
Local Open Scope validate_scope.

Lemma in_class_lower_digit_underscore (c : ascii) :
  in_class lower c = true \/ in_class lower_digit c = true ->
  in_class lower_digit_underscore c = true.
Proof.
  unfold in_class, lower, lower_digit, lower_digit_underscore. cbn [existsb].
  rewrite !orb_false_r, !orb_true_iff. tauto.
Qed.

(** The optional prefix of a namespace, with at most [n] characters between
    its first and its last. *)
Lemma prefix_shape (n : nat) (s : list ascii) :
  matches (Seq (Class lower)
             (Seq (Repeat (Class lower_digit_underscore) 1 (Some n))
                (Seq (Class lower_digit) (Class [Char "/"])))) s = true <->
  exists c mid l,
    s = c :: mid ++ [l; "/"%char]
    /\ in_class lower c = true
    /\ forallb (in_class lower_digit_underscore) mid = true
    /\ (1 <= length mid <= n)%nat
    /\ in_class lower_digit l = true.
Proof.
  rewrite matches_Seq_Class. destruct s as [|c s].
  - split; [discriminate | intros (c & mid & l & H & _); discriminate].
  - rewrite andb_true_iff, matches_Seq. split.
    + intros [Hc (s1 & s2 & -> & H1 & H2)].
      rewrite matches_Repeat_Class in H1. bool_props_in H1.
      rewrite matches_Seq_Class in H2. destruct s2 as [|l s2]; [discriminate |].
      apply andb_true_iff in H2 as [Hl H2].
      apply matches_Class in H2 as (x & -> & Hx).
      unfold in_class in Hx. cbn [existsb in_item] in Hx.
      rewrite orb_false_r in Hx. apply Ascii.eqb_eq in Hx. subst x.
      exists c, s1, l. intuition.
    + intros (c' & mid & l & H & Hc & Hmid & Hlen & Hl).
      inversion H; subst. split; [assumption |].
      exists mid, [l; "/"%char]. split; [reflexivity |]. split.
      * rewrite matches_Repeat_Class. bool_props. intuition.
      * rewrite matches_Seq_Class, Hl. reflexivity.
Qed.

(** X8. The rule of a relation name ([Relation.name],
    [ComputedUserset.relation], [Tupleset.relation]) accepts exactly the
    strings of 3 to 64 bytes that start with a lowercase letter, end with a
    lowercase letter or a digit, and consist of lowercase letters, digits
    and underscores. *)
Theorem relation_name_rule_shape (f s : string) :
  string_rules f 64 identifier_pattern s = None <->
  (3 <= length (list_ascii_of_string s) <= 64)%nat
  /\ (exists c, head (list_ascii_of_string s) = Some c /\ in_class lower c = true)
  /\ (exists c, last (list_ascii_of_string s) = Some c /\ in_class lower_digit c = true)
  /\ forallb (in_class lower_digit_underscore) (list_ascii_of_string s) = true.
Proof.
  rewrite string_rules_None. unfold MatchString.
  rewrite <- length_list_ascii_of_string.
  generalize (list_ascii_of_string s) as l. clear s. intros l.
  rewrite identifier_pattern_shape. split.
  - intros (Hlen & c & mid & x & -> & Hc & Hmid & Hm & Hx).
    split; [cbn; rewrite length_app; cbn; lia |].
    split; [exists c; auto |].
    split.
    + exists x. split; [| assumption].
      change (c :: mid ++ [x]) with ((c :: mid) ++ [x]). apply last_snoc.
    + cbn [forallb]. rewrite forallb_app. cbn [forallb].
      rewrite Hmid, !in_class_lower_digit_underscore by auto. reflexivity.
  - intros (Hlen & (c & Hhead & Hc) & (x & Hlast & Hx) & Hall).
    split; [lia |].
    destruct l as [|c' t]; [discriminate |]. cbn in Hhead. inversion Hhead; subst c'.
    destruct (exists_last (l := t)) as (mid & x' & ->).
    { intros ->. cbn in Hlen. lia. }
    change (c :: mid ++ [x']) with ((c :: mid) ++ [x']) in Hlast.
    rewrite last_snoc in Hlast. inversion Hlast; subst x'.
    cbn [forallb] in Hall. rewrite forallb_app in Hall.
    apply andb_true_iff in Hall as [_ Hall]. apply andb_true_iff in Hall as [Hmid _].
    cbn in Hlen. rewrite length_app in Hlen. cbn in Hlen.
    exists c, mid, x. repeat split; auto; lia.
Qed.

Lemma caveat_name_pattern_length (s : list ascii) :
  matches caveat_name_pattern s = true -> (1 <= length s <= 128)%nat.
Proof.
  unfold caveat_name_pattern.
  rewrite matches_Alt, orb_true_iff, matches_Lit, matches_Seq_Class.
  intros [H | ->]; [| cbn; lia].
  destruct s as [|c s]; [discriminate |].
  apply andb_true_iff in H as [_ H].
  rewrite matches_Repeat_Class in H. bool_props_in H. cbn. lia.
Qed.

Lemma namespace_definition_pattern_length (s : list ascii) :
  matches namespace_definition_pattern s = true -> (3 <= length s <= 129)%nat.
Proof.
  unfold namespace_definition_pattern, Opt. rewrite matches_Seq.
  intros (s1 & s2 & -> & H1 & H2).
  apply identifier_pattern_length in H2. rewrite length_app.
  rewrite matches_Alt, orb_true_iff, matches_Eps in H1.
  destruct H1 as [H1 | ->]; [| simpl; lia].
  apply prefix_shape in H1 as (c & mid & l & -> & _ & _ & Hlen & _).
  cbn. rewrite length_app. cbn. lia.
Qed.

(** X9. For a namespace and a relation of an [ObjectAndRelation], for a
    relation name and for a caveat name, the byte limit of the rule never
    rejects a string that the pattern accepts. For an object id and for the
    name of a [NamespaceDefinition] it does: the patterns match strings of
    1025 and of 129 bytes. *)
Theorem byte_limits_and_patterns :
  (forall f s, string_rules f 128 namespace_pattern s = None
               <-> MatchString namespace_pattern s = true)
  /\ (forall f s, string_rules f 64 relation_pattern s = None
                  <-> MatchString relation_pattern s = true)
  /\ (forall f s, string_rules f 64 identifier_pattern s = None
                  <-> MatchString identifier_pattern s = true)
  /\ (forall f s, string_rules f 128 caveat_name_pattern s = None
                  <-> MatchString caveat_name_pattern s = true)
  /\ (exists s, MatchString object_id_pattern s = true
                /\ string_rules "ObjectId" 1024 object_id_pattern s
                   = Some (mkValidationError "ObjectId" (MaxBytes 1024)))
  /\ (exists s, MatchString namespace_definition_pattern s = true
                /\ string_rules "Name" 128 namespace_definition_pattern s
                   = Some (mkValidationError "Name" (MaxBytes 128))).
Proof.
  assert (Hlimit : forall f n p s,
            (MatchString p s = true -> (String.length s <= n)%nat) ->
            (string_rules f n p s = None <-> MatchString p s = true)).
  { intros f n p s H. rewrite string_rules_None. split; [tauto | auto]. }
  split; [| split; [| split; [| split; [| split]]]].
  - intros f s. apply Hlimit. intros H.
    apply namespace_pattern_length in H.
    rewrite length_list_ascii_of_string in H. lia.
  - intros f s. apply Hlimit. intros H.
    apply relation_pattern_cases in H as [-> | H]; [cbn; lia |].
    apply identifier_pattern_length in H.
    rewrite length_list_ascii_of_string in H. lia.
  - intros f s. apply Hlimit. intros H.
    apply identifier_pattern_length in H.
    rewrite length_list_ascii_of_string in H. lia.
  - intros f s. apply Hlimit. intros H.
    apply caveat_name_pattern_length in H.
    rewrite length_list_ascii_of_string in H. lia.
  - exists (string_of_list_ascii (repeat "a"%char 1025)). split.
    + apply object_id_pattern_cases. right. split.
      * intros H. apply (f_equal String.length) in H.
        rewrite <- length_list_ascii_of_string,
          list_ascii_of_string_of_list_ascii, repeat_length in H. discriminate H.
      * rewrite list_ascii_of_string_of_list_ascii. vm_compute. reflexivity.
    + vm_compute. reflexivity.
  - exists (string_of_list_ascii
              ("a"%char :: repeat "b"%char 62 ++ ["c"; "/"; "a"]%char
               ++ repeat "b"%char 62 ++ ["c"%char])).
    split; vm_compute; reflexivity.
Qed.

(** X10. Every namespace that an [ObjectAndRelation] can name is accepted
    as the name of a [NamespaceDefinition], but not the other way round: a
    definition may have a prefix of 64 characters, which no
    [ObjectAndRelation], [RelationReference] or [AllowedRelation] can
    name. *)
Theorem namespace_references_and_definitions :
  (forall s, string_rules "Namespace" 128 namespace_pattern s = None ->
             string_rules "Name" 128 namespace_definition_pattern s = None)
  /\ (exists s, string_rules "Name" 128 namespace_definition_pattern s = None
                /\ string_rules "Namespace" 128 namespace_pattern s <> None).
Proof.
  split.
  - intros s. rewrite !string_rules_None. intros [Hlen H]. split; [exact Hlen |].
    revert H. unfold MatchString, namespace_pattern, namespace_definition_pattern, Opt.
    rewrite !matches_Seq. intros (s1 & s2 & Hs & H1 & H2).
    exists s1, s2. split; [exact Hs |]. split; [| exact H2].
    rewrite matches_Alt, orb_true_iff in *. destruct H1 as [H1 | H1]; [left | now right].
    apply prefix_shape in H1 as (c & mid & l & -> & Hc & Hmid & Hm & Hl).
    apply prefix_shape. exists c, mid, l. repeat split; auto; lia.
  - exists (string_of_list_ascii
              ("a"%char :: repeat "b"%char 62 ++ ["c"; "/"; "a"; "b"; "c"]%char)).
    split; vm_compute; [reflexivity | discriminate].
Qed.

(** X11. In an accepted [ObjectAndRelation] the star stands alone: an
    object id that contains a star is the wildcard itself. *)
Theorem wildcard_object_id_stands_alone (m : ObjectAndRelation) :
  ObjectAndRelation_Validate m = None ->
  In "*"%char (list_ascii_of_string (object_id m)) ->
  object_id m = "*".
Proof.
  unfold ObjectAndRelation_Validate.
  rewrite !andThen_None, !string_rules_None, object_id_pattern_cases.
  intros (_ & [_ [Hstar | [_ Hall]]] & _) Hin; [exact Hstar |].
  rewrite forallb_forall in Hall. specialize (Hall _ Hin). discriminate Hall.
Qed.

Lemma wildcard_object_id_stands_alone_witness :
  object_id (mkObjectAndRelation "user" "*" "...") = "*".
Proof.
  apply (wildcard_object_id_stands_alone (mkObjectAndRelation "user" "*" "...")).
  - vm_compute. reflexivity.
  - left. reflexivity.
Defined.

End PatternProperties.

(* ===================================================================== *)
(** * Further properties of the validation rules of core.proto            *)
(* ===================================================================== *)

Section ValidationProperties.
Import Regexp Core.
Local Open Scope validate_scope.

Lemma embedded_None {M : Type} (f : string) (validate : M -> option ValidationError)
    (m : option M) :
  embedded f validate m = None <-> from_option (fun m' => validate m' = None) True m.
Proof.
  destruct m as [m'|]; cbn; [| tauto].
  destruct (validate m'); split; congruence.
Qed.

Lemma embedded_each_None {M : Type} (f : string)
    (validate : M -> option ValidationError) (l : list (option M)) :
  embedded_each f validate l = None
  <-> Forall (from_option (fun m' => validate m' = None) True) l.
Proof.
  induction l as [|item rest IH]; cbn [embedded_each].
  - split; [constructor | reflexivity].
  - rewrite andThen_None, embedded_None, IH. split.
    + intros [H1 H2]. now constructor.
    + intros H. inversion H; subst. auto.
Qed.

(** Induction on rewrites and their children together. *)
Lemma UsersetRewrite_Child_ind (P : UsersetRewrite -> Prop)
    (Q : SetOperation_Child -> Prop) :
  (forall rewrite_operation sp,
      from_option (fun so => Forall (from_option Q True) (GetChild so)) True
        (setOperationOf rewrite_operation) ->
      P (mkUsersetRewrite rewrite_operation sp)) ->
  (forall child_type sp path,
      from_option P True (nestedRewrite child_type) ->
      Q (mkSetOperation_Child child_type sp path)) ->
  forall m, P m.
Proof.
  intros HP HQ. fix IH 1. intros [op sp]. apply HP.
  assert (Hchildren : forall child : list (option SetOperation_Child),
             Forall (from_option Q True) child).
  { intros child. induction child as [|item rest IHc]; constructor; [| exact IHc].
    destruct item as [[ct sp' path]|]; cbn; [| exact I].
    apply HQ. destruct ct as [[t|cu|ttu|[rw|]|n]|]; cbn; try exact I. apply IH. }
  destruct op as [[[[child]|]|[[child]|]|[[child]|]]|]; cbn; try exact I;
    apply Hchildren.
Qed.

(** ** Rewrites *)

Lemma UsersetRewrite_Validate_None (rewrite_operation : option RewriteOperation)
    (sp : option SourcePosition) :
  UsersetRewrite_Validate (mkUsersetRewrite rewrite_operation sp) = None
  <-> exists so, setOperationOf rewrite_operation = Some so
                 /\ SetOperation_Validate so = None.
Proof.
  destruct rewrite_operation as [[[so|]|[so|]|[so|]]|]; cbn [UsersetRewrite_Validate setOperationOf].
  all: try (split; [discriminate | intros (so' & H & _); discriminate]).
  all: destruct (SetOperation_Validate so) eqn:Hso; cbn.
  all: try (split; [discriminate | intros (so' & H & Hv); inversion H; subst; congruence]).
  all: split; [intros _; eauto | intros _; destruct sp; reflexivity].
Qed.

Lemma SetOperation_Child_Validate_None (child_type : option ChildType)
    (sp : option SourcePosition) (path : list Z) :
  SetOperation_Child_Validate (mkSetOperation_Child child_type sp path) = None
  <-> match child_type with
      | Some (SetOperation_Child_XThis _) | Some (SetOperation_Child_XNil _) => True
      | Some (SetOperation_Child_ComputedUserset o) =>
          exists cu, o = Some cu /\ ComputedUserset_Validate cu = None
      | Some (SetOperation_Child_TupleToUserset o) =>
          exists ttu, o = Some ttu /\ TupleToUserset_Validate ttu = None
      | Some (SetOperation_Child_UsersetRewrite o) =>
          exists rw, o = Some rw /\ UsersetRewrite_Validate rw = None
      | None => False
      end.
Proof.
  assert (Hsp : embedded "SourcePosition" SourcePosition_Validate sp = None)
    by (now destruct sp).
  cbn [SetOperation_Child_Validate]. rewrite andThen_None.
  destruct child_type as [[t|[cu|]|[ttu|]|[rw|]|n]|]; cbn [required andThen embedded].
  - tauto.
  - destruct (ComputedUserset_Validate cu) eqn:Hv.
    + split; [intros [H _]; discriminate |].
      intros (cu' & H & Hv'). inversion H; subst. congruence.
    + split; [eauto | auto].
  - split; [intros [H _]; discriminate | intros (cu' & H & _); discriminate].
  - destruct (TupleToUserset_Validate ttu) eqn:Hv.
    + split; [intros [H _]; discriminate |].
      intros (x & H & Hv'). inversion H; subst. congruence.
    + split; [eauto | auto].
  - split; [intros [H _]; discriminate | intros (x & H & _); discriminate].
  - destruct (UsersetRewrite_Validate rw) eqn:Hv.
    + split; [intros [H _]; discriminate |].
      intros (x & H & Hv'). inversion H; subst. congruence.
    + split; [eauto | auto].
  - split; [intros [H _]; discriminate | intros (x & H & _); discriminate].
  - tauto.
  - split; [intros [H _]; discriminate | tauto].
Qed.

(** X12. Validation of a rewrite does not look at its operation: a union,
    an intersection and an exclusion over the same children are accepted
    or rejected together. *)
Theorem UsersetRewrite_Validate_any_operation (o : option SetOperation)
    (sp : option SourcePosition) :
  (UsersetRewrite_Validate (mkUsersetRewrite (Some (UsersetRewrite_Union o)) sp) = None
   <-> UsersetRewrite_Validate
         (mkUsersetRewrite (Some (UsersetRewrite_Intersection o)) sp) = None)
  /\ (UsersetRewrite_Validate (mkUsersetRewrite (Some (UsersetRewrite_Union o)) sp) = None
      <-> UsersetRewrite_Validate
            (mkUsersetRewrite (Some (UsersetRewrite_Exclusion o)) sp) = None).
Proof. rewrite !UsersetRewrite_Validate_None. cbn [setOperationOf]. tauto. Qed.

Lemma SetOperation_relations_cons (item : option SetOperation_Child)
    (rest : list (option SetOperation_Child)) :
  SetOperation_relations (mkSetOperation (item :: rest))
  = from_option SetOperation_Child_relations [] item
    ++ SetOperation_relations (mkSetOperation rest).
Proof. destruct item; reflexivity. Qed.

Lemma ComputedUserset_Validate_relation (cu : ComputedUserset) :
  ComputedUserset_Validate cu = None ->
  MatchString identifier_pattern (cu_relation cu) = true.
Proof.
  unfold ComputedUserset_Validate. rewrite !andThen_None, string_rules_None. tauto.
Qed.

Lemma UsersetRewrite_relations_identifiers (m : UsersetRewrite) :
  UsersetRewrite_Validate m = None ->
  Forall (fun r => MatchString identifier_pattern r = true) (UsersetRewrite_relations m).
Proof.
  revert m.
  apply (UsersetRewrite_Child_ind
           (fun m => UsersetRewrite_Validate m = None ->
                     Forall (fun r => MatchString identifier_pattern r = true)
                       (UsersetRewrite_relations m))
           (fun c => SetOperation_Child_Validate c = None ->
                     Forall (fun r => MatchString identifier_pattern r = true)
                       (SetOperation_Child_relations c))).
  - intros op sp IH Hv.
    apply UsersetRewrite_Validate_None in Hv as (so & Hso & Hv).
    rewrite Hso in IH. cbn in IH.
    assert (Hrel : UsersetRewrite_relations (mkUsersetRewrite op sp)
                   = SetOperation_relations so).
    { destruct op as [[o|o|o]|]; cbn in Hso; subst; try discriminate; reflexivity. }
    rewrite Hrel. clear Hrel Hso. destruct so as [child]. cbn [GetChild] in IH.
    apply SetOperation_Validate_None in Hv as [_ Hv].
    induction child as [|item rest IHc]; [constructor |].
    rewrite SetOperation_relations_cons.
    inversion IH as [|? ? Hitem Hrest]; subst.
    inversion Hv as [|? ? (c & -> & Hc) Hvrest]; subst.
    apply Forall_app. split; [apply Hitem, Hc | now apply IHc].
  - intros ct sp path IH Hv.
    apply SetOperation_Child_Validate_None in Hv.
    destruct ct as [[t|o|o|o|n]|]; cbn [SetOperation_Child_relations]; try constructor.
    + destruct Hv as (cu & -> & Hv). constructor; [| constructor].
      now apply ComputedUserset_Validate_relation.
    + destruct Hv as (ttu & -> & Hv).
      unfold TupleToUserset_Validate in Hv. rewrite !andThen_None in Hv.
      destruct Hv as (Hts & Hts' & Hcu & Hcu' & _).
      destruct (tupleset ttu) as [ts|]; [| discriminate].
      destruct (computed_userset ttu) as [cu|]; [| discriminate].
      apply embedded_None in Hts', Hcu'. cbn in Hts', Hcu'.
      unfold Tupleset_Validate in Hts'. rewrite string_rules_None in Hts'.
      apply ComputedUserset_Validate_relation in Hcu'.
      cbn [app]. constructor; [tauto |]. constructor; [assumption | constructor].
    + destruct Hv as (rw & -> & Hv). cbn in IH. now apply IH.
Qed.

(** X13. Every relation that an accepted rewrite mentions, at whatever
    depth (the relations of its computed usersets, the tupleset relations
    and the computed relations of its tuple-to-usersets), is a well-formed
    relation name; none of them is the ellipsis. *)
Theorem UsersetRewrite_relations_well_formed (m : UsersetRewrite) :
  UsersetRewrite_Validate m = None ->
  Forall (fun r => MatchString identifier_pattern r = true /\ r <> "...")
    (UsersetRewrite_relations m).
Proof.
  intros Hv. apply UsersetRewrite_relations_identifiers in Hv.
  eapply Forall_impl; [exact Hv |]. cbv beta. intros r Hr.
  split; [exact Hr |]. intros ->. vm_compute in Hr. discriminate.
Qed.

Lemma UsersetRewrite_relations_well_formed_witness :
  Forall (fun r => MatchString identifier_pattern r = true /\ r <> "...")
    ["viewer"; "org"; "admin"].
Proof.
  apply (UsersetRewrite_relations_well_formed exampleViewRewrite).
  vm_compute. reflexivity.
Defined.

(** ** Relation tuples *)

Lemma RelationTuple_Validate_None (m : RelationTuple) :
  RelationTuple_Validate m = None
  <-> (exists res, resource_and_relation m = Some res
                   /\ ObjectAndRelation_Validate res = None)
      /\ (exists sub, subject m = Some sub /\ ObjectAndRelation_Validate sub = None)
      /\ from_option (fun c => ContextualizedCaveat_Validate c = None) True (caveat m).
Proof.
  unfold RelationTuple_Validate.
  rewrite !andThen_None, !required_None, !embedded_None. split.
  - intros ([res Hres] & Hr & [sub Hsub] & Hs & Hc).
    rewrite Hres in Hr. rewrite Hsub in Hs. cbn in Hr, Hs. eauto 10.
  - intros ((res & Hres & Hr) & (sub & Hsub & Hs) & Hc).
    rewrite Hres, Hsub. cbn. eauto 10.
Qed.

(** X14. Validation of a relation tuple asks the same of the resource and
    of the subject: a tuple is accepted exactly when the tuple with the two
    exchanged is. In particular it does not keep the wildcard or the
    ellipsis away from the resource. *)
Theorem RelationTuple_Validate_symmetric (a b : option ObjectAndRelation)
    (c : option ContextualizedCaveat) :
  RelationTuple_Validate (mkRelationTuple a b c) = None
  <-> RelationTuple_Validate (mkRelationTuple b a c) = None.
Proof. rewrite !RelationTuple_Validate_None. cbn. tauto. Qed.

(** X15. A relation tuple update is accepted exactly when its operation is
    one of the four defined values, [UNKNOWN] included, its tuple is
    present with a resource and a subject that are both accepted, and the
    caveat, if there is one, has a name that matches the caveat name
    pattern. *)
Theorem RelationTupleUpdate_Validate_accepts (m : RelationTupleUpdate) :
  RelationTupleUpdate_Validate m = None
  <-> (0 <= operation m <= 3)
      /\ exists t res sub,
           tuple m = Some t
           /\ resource_and_relation t = Some res
           /\ subject t = Some sub
           /\ ObjectAndRelation_Validate res = None
           /\ ObjectAndRelation_Validate sub = None
           /\ (forall c, caveat t = Some c ->
                         MatchString caveat_name_pattern (caveat_name c) = true).
Proof.
  unfold RelationTupleUpdate_Validate, UNKNOWN, CREATE, TOUCH, DELETE.
  rewrite !andThen_None, violation_None, negb_false_iff, required_None, embedded_None.
  rewrite !orb_true_iff, !Z.eqb_eq.
  assert (Hcaveat : forall c : option ContextualizedCaveat,
            from_option (fun c => ContextualizedCaveat_Validate c = None) True c
            <-> (forall c', c = Some c' ->
                            MatchString caveat_name_pattern (caveat_name c') = true)).
  { intros [c|]; cbn.
    - unfold ContextualizedCaveat_Validate. rewrite string_rules_None. split.
      + intros [_ H] c' Hc. now inversion Hc; subst.
      + intros H. split; [| now apply H].
        specialize (H c eq_refl). apply caveat_name_pattern_length in H.
        rewrite length_list_ascii_of_string in H. lia.
    - split; [intros _ c' Hc; discriminate | auto]. }
  split.
  - intros (Hop & [t Ht] & Hv). rewrite Ht in Hv. cbn in Hv.
    apply RelationTuple_Validate_None in Hv
      as ((res & Hres & Hr) & (sub & Hsub & Hs) & Hc).
    split; [lia |]. exists t, res, sub. rewrite <- Hcaveat. auto 10.
  - intros (Hop & t & res & sub & Ht & Hres & Hsub & Hr & Hs & Hc).
    split; [lia |]. split; [eauto |]. rewrite Ht. cbn.
    apply RelationTuple_Validate_None. rewrite Hcaveat. eauto 10.
Qed.

(** ** Caveats *)

Lemma CaveatTypeReference_tree_ind (P : CaveatTypeReference -> Prop) :
  (forall type_name child_types,
      Forall (from_option P True) child_types ->
      P (mkCaveatTypeReference type_name child_types)) ->
  forall m, P m.
Proof.
  intros HP. fix IH 1. intros [type_name child_types]. apply HP.
  induction child_types as [|item rest IHc]; constructor; [| exact IHc].
  destruct item as [c|]; cbn; [apply IH | exact I].
Qed.

Lemma CaveatTypeReference_Validate_None (type_name : string)
    (child_types : list (option CaveatTypeReference)) :
  CaveatTypeReference_Validate (mkCaveatTypeReference type_name child_types) = None
  <-> (length child_types <= 1)%nat
      /\ Forall (from_option (fun c => CaveatTypeReference_Validate c = None) True)
           child_types.
Proof.
  cbn [CaveatTypeReference_Validate].
  rewrite andThen_None, violation_None, Nat.ltb_ge.
  apply and_iff_compat_l.
  induction child_types as [|item rest IH].
  - split; [constructor | reflexivity].
  - rewrite andThen_None, IH. split.
    + intros [Hitem Hrest]. constructor; [| exact Hrest].
      destruct item as [c|]; cbn; [| exact I].
      destruct (CaveatTypeReference_Validate c); [discriminate | reflexivity].
    + intros H. inversion H as [|? ? Hitem Hrest]; subst. split; [| exact Hrest].
      destruct item as [c|]; cbn in *; [| reflexivity]. now rewrite Hitem.
Qed.

(** X16. A caveat type reference is accepted exactly when it has at most
    one child type at every level: the accepted types are chains. *)
Theorem CaveatTypeReference_Validate_chains (m : CaveatTypeReference) :
  CaveatTypeReference_Validate m = None <-> SingleChildTypes m.
Proof.
  split.
  - revert m. apply (CaveatTypeReference_tree_ind
      (fun m => CaveatTypeReference_Validate m = None -> SingleChildTypes m)).
    intros type_name child_types IH Hv.
    apply CaveatTypeReference_Validate_None in Hv as [Hlen Hv].
    destruct child_types as [|item [|item' rest]]; [constructor | | cbn in Hlen; lia].
    destruct item as [c|]; [| constructor].
    inversion IH as [|? ? Hitem _]; inversion Hv as [|? ? Hc _]; subst.
    constructor. now apply Hitem.
  - induction 1 as [type_name | type_name | type_name child _ IH].
    + reflexivity.
    + reflexivity.
    + apply CaveatTypeReference_Validate_None. split; [cbn; lia |].
      constructor; [exact IH | constructor].
Qed.

(** ** Metadata *)

(** X17. Metadata is accepted exactly when it holds at least one message
    and every message is present with one of the two allowed type URLs. *)
Theorem Metadata_Validate_accepts (m : Metadata) :
  Metadata_Validate m = None
  <-> metadata_message m <> [] /\ Forall valid_metadata_message (metadata_message m).
Proof.
  unfold Metadata_Validate. rewrite andThen_None, violation_None, Nat.ltb_ge.
  assert (Hne : (1 <= length (metadata_message m))%nat <-> metadata_message m <> []).
  { destruct (metadata_message m); cbn; split; try congruence; lia. }
  rewrite Hne. apply and_iff_compat_l. clear Hne.
  induction (metadata_message m) as [|item rest IH].
  - split; [constructor | reflexivity].
  - rewrite !andThen_None, required_None, IH.
    assert (Hin : forall u, existsb (String.eqb u) Metadata_MetadataMessage_InLookup = true
                            <-> In u Metadata_MetadataMessage_InLookup).
    { intros u. rewrite existsb_exists. split.
      - intros (x & Hx & Hu). apply String.eqb_eq in Hu. now subst.
      - intros H. exists u. split; [exact H | apply String.eqb_refl]. }
    split.
    + intros ([a ->] & Ha & Hrest). constructor; [| exact Hrest].
      exists a. split; [reflexivity |].
      apply violation_None, negb_false_iff in Ha. now apply Hin.
    + intros H. inversion H as [|? ? (a & -> & Ha) Hrest]; subst.
      split; [eauto |]. split; [| exact Hrest].
      apply violation_None, negb_false_iff. now apply Hin.
Qed.

(** ** Caveat definitions *)

(** X18. A caveat definition is accepted exactly when its name matches the
    caveat name pattern, its expression has at most 4096 bytes, it has
    between 1 and 20 parameters, every parameter type is nil or accepted,
    and its metadata is absent or accepted. Source positions play no part. *)
Theorem CaveatDefinition_Validate_accepts (m : CaveatDefinition) :
  CaveatDefinition_Validate m = None
  <-> MatchString caveat_name_pattern (name m) = true
      /\ (length (serialized_expression m) <= 4096)%nat
      /\ (1 <= size (parameter_types m) <= 20)%nat
      /\ map_Forall (fun _ t => valid_parameter_type t) (parameter_types m)
      /\ from_option (fun md => Metadata_Validate md = None) True (metadata m).
Proof.
  unfold CaveatDefinition_Validate.
  rewrite !andThen_None, string_rules_None, !violation_None, embedded_None.
  rewrite orb_false_iff, !Nat.ltb_ge, map_Forall_to_list.
  assert (Hpairs : forall l : list (string * option CaveatTypeReference),
    (fix pairs (l : list (string * option CaveatTypeReference))
       : option ValidationError :=
       match l with
       | [] => None
       | (key, val) :: rest =>
           embedded "ParameterTypes[key]" CaveatTypeReference_Validate val ;; pairs rest
       end) l = None
    <-> Forall (uncurry (fun (_ : string) t => valid_parameter_type t)) l).
  { induction l as [|[key val] rest IH].
    - split; [constructor | reflexivity].
    - rewrite andThen_None, IH. split.
      + intros [H1 H2]. now constructor.
      + intros H. inversion H; subst. auto. }
  rewrite Hpairs.
  assert (Hsp : embedded "SourcePosition" SourcePosition_Validate (source_position m) = None)
    by (now destruct (source_position m)).
  split.
  - intros ([_ Hname] & Hexpr & [Hlo Hhi] & Hall & Hmd & _). auto 10.
  - intros (Hname & Hexpr & [Hlo Hhi] & Hall & Hmd).
    pose proof (caveat_name_pattern_length _ Hname) as Hlen.
    rewrite length_list_ascii_of_string in Hlen.
    repeat split; auto; lia.
Qed.

(** ** Namespace definitions *)

Lemma NamespaceDefinition_Validate_None (m : NamespaceDefinition) :
  NamespaceDefinition_Validate m = None
  <-> string_rules "Name" 128 namespace_definition_pattern (ns_name m) = None
      /\ Forall (from_option (fun r => Relation_Validate r = None) True) (ns_relation m)
      /\ from_option (fun md => Metadata_Validate md = None) True (ns_metadata m).
Proof.
  unfold NamespaceDefinition_Validate.
  rewrite !andThen_None, embedded_each_None, !embedded_None.
  assert (Hsp : from_option (fun sp => SourcePosition_Validate sp = None) True
                  (ns_source_position m)) by (now destruct (ns_source_position m)).
  tauto.
Qed.

(** X19. In an accepted namespace definition every relation has a
    well-formed name, every relation that a rewrite of it mentions is a
    well-formed relation name, and every allowed subject type has a
    namespace that an [ObjectAndRelation] can name, with the ellipsis or a
    well-formed relation name as its relation. *)
Theorem NamespaceDefinition_Validate_relations (m : NamespaceDefinition)
    (rel : Relation) :
  NamespaceDefinition_Validate m = None ->
  In (Some rel) (ns_relation m) ->
  MatchString identifier_pattern (rel_name rel) = true
  /\ (forall rw, rel_userset_rewrite rel = Some rw ->
        Forall (fun r => MatchString identifier_pattern r = true)
          (UsersetRewrite_relations rw))
  /\ (forall ti allowed,
        type_information rel = Some ti ->
        In (Some allowed) (allowed_direct_relations ti) ->
        MatchString namespace_pattern (ar_namespace allowed) = true
        /\ (forall r, relation_or_wildcard allowed = Some (AllowedRelation_Relation r) ->
                      r = "..." \/ MatchString identifier_pattern r = true)).
Proof.
  intros Hv Hin. apply NamespaceDefinition_Validate_None in Hv as (_ & Hrels & _).
  rewrite List.Forall_forall in Hrels. specialize (Hrels _ Hin). cbn in Hrels.
  unfold Relation_Validate in Hrels.
  rewrite !andThen_None, string_rules_None, !embedded_None in Hrels.
  destruct Hrels as ([_ Hname] & Hrw & Hti & _).
  split; [exact Hname |]. split.
  - intros rw Hrw'. rewrite Hrw' in Hrw. cbn in Hrw.
    now apply UsersetRewrite_relations_identifiers.
  - intros ti allowed Hti' Hallowed. rewrite Hti' in Hti. cbn in Hti.
    unfold TypeInformation_Validate in Hti. rewrite embedded_each_None in Hti.
    rewrite List.Forall_forall in Hti. specialize (Hti _ Hallowed). cbn in Hti.
    unfold AllowedRelation_Validate in Hti.
    rewrite !andThen_None, string_rules_None in Hti.
    destruct Hti as ([_ Hns] & _ & Hrel).
    split; [exact Hns |]. intros r Hr. rewrite Hr in Hrel.
    apply string_rules_None in Hrel as [_ Hrel].
    now apply relation_pattern_cases.
Qed.

Lemma NamespaceDefinition_Validate_relations_witness :
  MatchString identifier_pattern (rel_name exampleViewRelation) = true
  /\ (forall rw, rel_userset_rewrite exampleViewRelation = Some rw ->
        Forall (fun r => MatchString identifier_pattern r = true)
          (UsersetRewrite_relations rw))
  /\ (forall ti allowed,
        type_information exampleViewRelation = Some ti ->
        In (Some allowed) (allowed_direct_relations ti) ->
        MatchString namespace_pattern (ar_namespace allowed) = true
        /\ (forall r, relation_or_wildcard allowed = Some (AllowedRelation_Relation r) ->
                      r = "..." \/ MatchString identifier_pattern r = true)).
Proof.
  apply (NamespaceDefinition_Validate_relations exampleResource exampleViewRelation).
  - vm_compute. reflexivity.
  - right. left. reflexivity.
Defined.

(** X20. Acceptance of a namespace definition looks at each relation on
    its own: the relations of an accepted definition, reordered, repeated
    or in part left out, make an accepted definition again. Two relations
    of the same name are not rejected. *)
Theorem NamespaceDefinition_Validate_relations_apart (ns_name : string)
    (relations relations' : list (option Relation)) (md : option Metadata)
    (sp sp' : option SourcePosition) :
  (forall r, In r relations' -> In r relations) ->
  NamespaceDefinition_Validate (mkNamespaceDefinition ns_name relations md sp) = None ->
  NamespaceDefinition_Validate (mkNamespaceDefinition ns_name relations' md sp') = None.
Proof.
  intros Hsub. rewrite !NamespaceDefinition_Validate_None. cbn.
  rewrite !List.Forall_forall. intros (Hname & Hrels & Hmd).
  repeat split; auto.
Qed.

Lemma NamespaceDefinition_Validate_relations_apart_witness :
  NamespaceDefinition_Validate
    (mkNamespaceDefinition "resource"
       [Some exampleViewerRelation; Some exampleViewerRelation] None None) = None.
Proof.
  apply (NamespaceDefinition_Validate_relations_apart "resource"
           [Some exampleViewerRelation; Some exampleViewRelation]
           [Some exampleViewerRelation; Some exampleViewerRelation] None None None).
  - intros r [<- | [<- | []]]; left; reflexivity.
  - vm_compute. reflexivity.
Defined.

End ValidationProperties.
